(** * fx-ssg: the build scripts and the image optimizer, embedded in Rocq

    The repository holds three revisions of the build script and one helper:

    - [src/index.js], first document  (module [BuildPages]): one content
      directory, pages and fragments told apart by the delimiter;
    - [src/index.js], second document (module [BuildVersioned]): a fragment
      directory whose routes carry the build fingerprint [FX_VERSION];
    - [src/unnamed/part_000]          (module [BuildSplit]): separate page and
      fragment directories with a collision warning;
    - [src/unnamed/part_001]          (module [ImageOptimizer]): [processImages].

    Modelling conventions.

    - A JavaScript string is the list of its UTF-16 code units ([list N]).
    - A regular expression is the backtracking matcher that ECMAScript
      defines for it, written with continuations (module [Regex]).
    - A plain object used as a dictionary is a [gmap] from strings to strings;
      an assignment to the key [__proto__] stores nothing, as in JavaScript.
    - What the scripts import (the file system, [path], [sharp],
      [html-minifier-terser]) is the interface [Runtime]; every theorem about
      a script holds for all of its implementations.  [Demo.runtime] is a
      small POSIX stand-in used to run the scripts on concrete inputs.
    - Asynchronous tasks run to completion in source order.  Every call into
      the runtime returns: the file operations succeed, [sharp] encodes every
      size it is asked for, the minifier and the layout functions return a
      string.  The one exception is the dynamic [import] of a layout module
      that does not exist, which throws.
    - Numbers are exact integers (or NaN); this agrees with JavaScript below
      2^53.
    - Directory set-up and the copy of the asset tree happen before the
      modelled part of a build; source documents and layout modules are
      inputs that the build does not change.
    - The table inside the generated [worker.js] is the edge store itself:
      it is written with [JSON.stringify] and read back as an object
      literal, and no key of a store starts with an underscore. *)

From Stdlib Require Import ZArith NArith Lia Ascii.
From Stdlib Require Import DecimalString DecimalPos.
From stdpp Require Import strings list gmap.

Set Default Proof Using "Type".
Open Scope N_scope.

(** ** JavaScript strings *)

Module JS.

Abbreviation jsstring := (list N).

(** A literal: every character of [s] as one code unit (ASCII text only). *)
Definition js (s : string) : jsstring :=
  (fun a => N_of_ascii a) <$> String.list_ascii_of_string s.
#[global] Arguments js : simpl never.

Definition dquote : N := 34.
Definition squote : N := 39.
Definition dollar : N := 36.

(** [quoted s] is [s] between double quotes. *)
Definition quoted (s : jsstring) : jsstring := dquote :: s ++ [dquote].

(** ECMAScript WhiteSpace and LineTerminator: the class [\s], and what
    [String.prototype.trim] strips. *)
Definition is_space (c : N) : bool :=
  ((9 <=? c) && (c <=? 13)) || (c =? 32) || (c =? 160) || (c =? 5760)
  || ((8192 <=? c) && (c <=? 8202)) || (c =? 8232) || (c =? 8233)
  || (c =? 8239) || (c =? 8287) || (c =? 12288) || (c =? 65279).

Definition is_digit (c : N) : bool := (48 <=? c) && (c <=? 57).

(** The class [\w]: ASCII letters, digits and the underscore. *)
Definition is_word (c : N) : bool :=
  is_digit c || ((65 <=? c) && (c <=? 90)) || (c =? 95)
  || ((97 <=? c) && (c <=? 122)).

Definition str_eqb (a b : jsstring) : bool := bool_decide (a = b).

(** [strip_prefix w s] is the rest of [s] after its prefix [w], if it has it. *)
Fixpoint strip_prefix (w s : jsstring) : option jsstring :=
  match w with
  | [] => Some s
  | a :: w' =>
      match s with
      | [] => None
      | c :: s' => if a =? c then strip_prefix w' s' else None
      end
  end.

Definition startsWith (s w : jsstring) : bool :=
  match strip_prefix w s with Some _ => true | None => false end.

Definition endsWith (s w : jsstring) : bool := startsWith (rev s) (rev w).

(** [break_on sep s]: the text before and after the first occurrence of
    [sep] in [s]. *)
Fixpoint break_on (sep s : jsstring) : option (jsstring * jsstring) :=
  match strip_prefix sep s with
  | Some rest => Some ([], rest)
  | None =>
      match s with
      | [] => None
      | c :: s' =>
          match break_on sep s' with
          | Some (a, b) => Some (c :: a, b)
          | None => None
          end
      end
  end.

Definition includes (s sep : jsstring) : bool :=
  match break_on sep s with Some _ => true | None => false end.

(** [s.split(sep)] for a non-empty separator.  Every round removes at least
    one code unit, so [length s] rounds are enough. *)
Fixpoint split_fuel (fuel : nat) (sep s : jsstring) : list jsstring :=
  match break_on sep s with
  | None => [s]
  | Some (a, b) =>
      match fuel with
      | O => [a]
      | S fuel' => a :: split_fuel fuel' sep b
      end
  end.

Definition split (s sep : jsstring) : list jsstring :=
  split_fuel (length s) sep s.

(** [parts.join(sep)]. *)
Fixpoint join (sep : jsstring) (parts : list jsstring) : jsstring :=
  match parts with
  | [] => []
  | [p] => p
  | p :: rest => p ++ sep ++ join sep rest
  end.

Fixpoint trimStart (s : jsstring) : jsstring :=
  match s with
  | c :: s' => if is_space c then trimStart s' else s
  | [] => []
  end.

Definition trimEnd (s : jsstring) : jsstring := rev (trimStart (rev s)).

Definition trim (s : jsstring) : jsstring := trimEnd (trimStart s).

(** [s.slice(1)]. *)
Definition slice1 (s : jsstring) : jsstring := drop 1 s.

(** [s.indexOf(pat, from)]: the least index [i >= from] at which [pat]
    occurs in [s]. *)
Fixpoint indexOf_at (pat s : jsstring) (from i : nat) : option nat :=
  match from with
  | S from' =>
      match s with
      | [] => if pat is [] then Some i else None
      | _ :: s' => indexOf_at pat s' from' (S i)
      end
  | O =>
      if startsWith s pat then Some i
      else match s with
           | [] => None
           | _ :: s' => indexOf_at pat s' O (S i)
           end
  end.

Definition indexOf (s pat : jsstring) (from : nat) : option nat :=
  indexOf_at pat s from 0%nat.

(** GetSubstitution for a replacement template when the pattern is a string
    (no captures): [$$] is a dollar sign, [$&] the matched text, [$`] the
    text before the match, [$'] the text after it; every other [$] stands
    for itself. *)
Fixpoint getSubstitution (matched before after tpl : jsstring) : jsstring :=
  match tpl with
  | [] => []
  | c :: t =>
      match t with
      | d :: t' =>
          if c =? dollar then
            if d =? dollar then dollar :: getSubstitution matched before after t'
            else if d =? 38 then matched ++ getSubstitution matched before after t'
            else if d =? 96 then before ++ getSubstitution matched before after t'
            else if d =? squote then after ++ getSubstitution matched before after t'
            else c :: getSubstitution matched before after t
          else c :: getSubstitution matched before after t
      | [] => [c]
      end
  end.

(** [s.replace(pat, tpl)] with a string pattern: the first occurrence only. *)
Definition replace (s pat tpl : jsstring) : jsstring :=
  match break_on pat s with
  | None => s
  | Some (before, after) =>
      before ++ getSubstitution pat before after tpl ++ after
  end.

(** [s.replace(/\s+/g, ' ')]: every maximal run of white space becomes one
    space. *)
Fixpoint collapse_spaces (s : jsstring) : jsstring :=
  match s with
  | [] => []
  | c :: s' =>
      if is_space c then
        match s' with
        | d :: _ => if is_space d then collapse_spaces s'
                    else 32 :: collapse_spaces s'
        | [] => [32]
        end
      else c :: collapse_spaces s'
  end.

(** *** Numbers: an exact integer or NaN *)

Inductive number :=
  | NaN
  | Num (z : Z).

(** Truthiness of a number: everything but 0 and NaN. *)
Definition truthy_number (n : number) : bool :=
  match n with
  | NaN => false
  | Num z => negb (z =? 0)%Z
  end.

Definition digit_value (radix : Z) (c : N) : option Z :=
  let v :=
    if is_digit c then Some (Z.of_N c - 48)%Z
    else if (97 <=? c) && (c <=? 122) then Some (Z.of_N c - 87)%Z
    else if (65 <=? c) && (c <=? 90) then Some (Z.of_N c - 55)%Z
    else None in
  match v with
  | Some d => if (d <? radix)%Z then Some d else None
  | None => None
  end.

(** The longest run of digits from the start of [s], read in [radix]. *)
Fixpoint parse_digits (radix : Z) (s : jsstring) (acc : option Z) : option Z :=
  match s with
  | [] => acc
  | c :: s' =>
      match digit_value radix c with
      | Some d =>
          parse_digits radix s'
            (Some (match acc with Some a => a * radix + d | None => d end)%Z)
      | None => acc
      end
  end.

(** [parseInt(s)] with no radix argument. *)
Definition parseInt (s : jsstring) : number :=
  let s := trimStart s in
  let '(sign, s) :=
    match s with
    | 45 :: s' => ((-1)%Z, s')
    | 43 :: s' => (1%Z, s')
    | _ => (1%Z, s)
    end in
  let '(radix, s) :=
    match s with
    | 48 :: 120 :: s' => (16%Z, s')
    | 48 :: 88 :: s' => (16%Z, s')
    | _ => (10%Z, s)
    end in
  match parse_digits radix s None with
  | Some v => Num (sign * v)
  | None => NaN
  end.

(** A number inside a template literal. *)
Definition number_to_string (n : number) : jsstring :=
  match n with
  | NaN => js "NaN"
  | Num z => js (NilZero.string_of_int (Z.to_int z))
  end.

(** A plain object used as a dictionary: [obj[k] = v]. *)
Definition obj_set (k v : jsstring) (o : gmap (list N) (list N))
  : gmap (list N) (list N) :=
  if str_eqb k (js "__proto__") then o else <[k := v]> o.

End JS.
Export JS.


(** ** Regular expressions

    A pattern is embedded as the backtracking matcher ECMAScript gives it: a
    matcher takes the rest of the input and a continuation, and tries its
    alternatives in priority order until the continuation succeeds. *)

Module Regex.

Section Matchers.
Context {R : Type}.

(** A literal word. *)
Definition lit (w s : jsstring) (k : jsstring → option R) : option R :=
  match strip_prefix w s with
  | Some s' => k s'
  | None => None
  end.

(** One code unit of a class. *)
Definition one (p : N → bool) (s : jsstring)
    (k : N → jsstring → option R) : option R :=
  match s with
  | c :: s' => if p c then k c s' else None
  | [] => None
  end.

(** [[p]*?]: as few code units as possible; [acc] is what is captured. *)
Fixpoint star_lazy (p : N → bool) (acc s : jsstring)
    (k : jsstring → jsstring → option R) : option R :=
  match k acc s with
  | Some r => Some r
  | None =>
      match s with
      | c :: s' => if p c then star_lazy p (acc ++ [c]) s' k else None
      | [] => None
      end
  end.

(** [[p]*]: as many code units as possible, giving back one at a time. *)
Fixpoint star_greedy (p : N → bool) (acc s : jsstring)
    (k : jsstring → jsstring → option R) : option R :=
  match s with
  | c :: s' =>
      if p c then
        match star_greedy p (acc ++ [c]) s' k with
        | Some r => Some r
        | None => k acc s
        end
      else k acc s
  | [] => k acc s
  end.

(** [[p]+]. *)
Definition plus_greedy (p : N → bool) (s : jsstring)
    (k : jsstring → jsstring → option R) : option R :=
  one p s (fun c s' => star_greedy p [c] s' k).
End Matchers.

(** A global scan ([matchAll], an [exec] loop, [replace] with a function):
    matches are tried from left to right and do not overlap.  [at_ s] is the
    match that starts at the head of [s] with the input left after it;
    [skip] counts the code units of the last match still to step over.  The
    patterns of this program match no empty string. *)
Fixpoint scan {M : Type} (at_ : jsstring → option (M * jsstring))
    (s : jsstring) (skip : nat) : list M :=
  match s with
  | [] => []
  | _ :: s' =>
      match skip with
      | S n => scan at_ s' n
      | O =>
          match at_ s with
          | Some (m, rest) => m :: scan at_ s' (length s - length rest - 1)
          | None => scan at_ s' O
          end
      end
  end.

Definition matchAll {M : Type} (at_ : jsstring → option (M * jsstring))
    (s : jsstring) : list M :=
  scan at_ s O.

Definition any (c : N) : bool := true.
Definition is_quote (c : N) : bool := (c =? dquote) || (c =? squote).
Definition not_quote (c : N) : bool := negb (is_quote c).
Definition not_gt (c : N) : bool := negb (c =? 62).

End Regex.

(** ** SHA-1, for [crypto.createHash("sha1")] *)

Module Sha1.

Definition w32 (x : N) : N := N.land x 4294967295.

Definition rotl (n x : N) : N :=
  w32 (N.lor (N.shiftl x n) (N.shiftr x (32 - n))).

Definition add32 (x y : N) : N := w32 (x + y).

(** A string as the bytes [hash.update] reads: UTF-8, a lone surrogate
    becoming U+FFFD. *)
Fixpoint utf8 (s : jsstring) : list N :=
  let replacement := [239; 191; 189] in
  let three c := [224 + c / 4096; 128 + (c / 64) mod 64; 128 + c mod 64] in
  match s with
  | [] => []
  | c :: s' =>
      if c <? 128 then c :: utf8 s'
      else if c <? 2048 then [192 + c / 64; 128 + c mod 64] ++ utf8 s'
      else if (55296 <=? c) && (c <? 56320) then
        match s' with
        | d :: s'' =>
            if (56320 <=? d) && (d <? 57344) then
              let cp := 65536 + (c - 55296) * 1024 + (d - 56320) in
              [240 + cp / 262144; 128 + (cp / 4096) mod 64;
               128 + (cp / 64) mod 64; 128 + cp mod 64] ++ utf8 s''
            else replacement ++ utf8 s'
        | [] => replacement
        end
      else if (56320 <=? c) && (c <? 57344) then replacement ++ utf8 s'
      else three c ++ utf8 s'
  end.

(** The message, a byte 0x80, zero bytes up to 56 modulo 64, and the length
    in bits as eight big-endian bytes. *)
Definition pad (msg : list N) : list N :=
  let len := length msg in
  let zeros := ((64 - (len + 9) mod 64) mod 64)%nat in
  let bits := N.of_nat len * 8 in
  msg ++ [128] ++ replicate zeros 0
      ++ ((fun i => (bits / 2 ^ (8 * N.of_nat (7 - i))) mod 256) <$> seq 0 8).

Fixpoint words (bytes : list N) : list N :=
  match bytes with
  | a :: b :: c :: d :: rest =>
      (a * 16777216 + b * 65536 + c * 256 + d) :: words rest
  | _ => []
  end.

(** The message schedule, latest word first: [W t] from [W (t-3)],
    [W (t-8)], [W (t-14)] and [W (t-16)]. *)
Fixpoint extend (n : nat) (rev_w : list N) : list N :=
  match n with
  | O => rev_w
  | S n' =>
      let w := rotl 1 (N.lxor (N.lxor (nth 2 rev_w 0) (nth 7 rev_w 0))
                              (N.lxor (nth 13 rev_w 0) (nth 15 rev_w 0))) in
      extend n' (w :: rev_w)
  end.

Definition schedule (block : list N) : list N := rev (extend 64 (rev block)).

Definition lnot32 (x : N) : N := N.lxor x 4294967295.

Definition round_f (t : nat) (b c d : N) : N :=
  if (t <? 20)%nat then N.lor (N.land b c) (N.land (lnot32 b) d)
  else if (t <? 40)%nat then N.lxor (N.lxor b c) d
  else if (t <? 60)%nat then
    N.lor (N.lor (N.land b c) (N.land b d)) (N.land c d)
  else N.lxor (N.lxor b c) d.

Definition round_k (t : nat) : N :=
  if (t <? 20)%nat then 1518500249
  else if (t <? 40)%nat then 1859775393
  else if (t <? 60)%nat then 2400959708
  else 3395469782.

Definition state : Type := N * N * N * N * N.

Definition round (st : state) (tw : nat * N) : state :=
  let '(a, b, c, d, e) := st in
  let '(t, w) := tw in
  let temp :=
    add32 (add32 (add32 (add32 (rotl 5 a) (round_f t b c d)) e) (round_k t)) w in
  (temp, a, rotl 30 b, c, d).

Definition compress (h : state) (block : list N) : state :=
  let '(a, b, c, d, e) := foldl round h (imap (fun t w => (t, w)) (schedule block)) in
  let '(h0, h1, h2, h3, h4) := h in
  (add32 h0 a, add32 h1 b, add32 h2 c, add32 h3 d, add32 h4 e).

Fixpoint blocks (n : nat) (ws : list N) : list (list N) :=
  match n with
  | O => []
  | S n' => take 16 ws :: blocks n' (drop 16 ws)
  end.

Definition initial : state :=
  (1732584193, 4023233417, 2562383102, 271733878, 3285377520).

Definition sha1 (msg : list N) : state :=
  let ws := words (pad msg) in
  foldl compress initial (blocks (length ws / 16) ws).

Definition hex_digit (n : N) : N := if n <? 10 then 48 + n else 87 + n.

(** The eight lower-case hexadecimal digits of a 32-bit word. *)
Definition hex32 (w : N) : jsstring :=
  (fun i => hex_digit ((w / 16 ^ N.of_nat (7 - i)) mod 16)) <$> seq 0 8.

End Sha1.

(** ** What the scripts import *)

(** A size request of the marker: [{ width, height }], [height] being
    [null] when the token has no [x] part. *)
Record size := { width : number; height : option number }.

(** [size.height ? ... : ...] *)
Definition has_height (sz : size) : bool :=
  match height sz with
  | Some h => truthy_number h
  | None => false
  end.

(** The two calls of [pipeline.resize]: [{ width }], which keeps the aspect
    ratio, and [{ width, height, fit: 'cover', position: 'centre' }]. *)
Inductive resize :=
  | ResizeWidth (w : number)
  | ResizeCover (w h : number).

(** One encoded rendition: [sharp(source).resize(..).webp({ quality })
    .toFile(target)]. *)
Record variant := {
  v_source : jsstring;
  v_resize : resize;
  v_quality : Z;
  v_target : jsstring
}.

Class Runtime := {
  (** the state of the file system *)
  FS : Type;
  existsSync : FS → jsstring → bool;
  (** [fs.promises.mkdir(dir, { recursive: true })] *)
  mkdir : FS → jsstring → FS;
  (** the file written by [toFile] *)
  toFile : FS → variant → FS;
  (** the file system once [Bun.write] or [fs.writeFileSync] has written a
      file at a path; the text written is kept by the build state *)
  writeFile : FS → jsstring → FS;
  path_sep : jsstring;
  path_join : list jsstring → jsstring;
  path_dirname : jsstring → jsstring;
  path_basename : jsstring → jsstring → jsstring;
  path_extname : jsstring → jsstring;
  (** [minify(html, MINIFY_OPTS)] of html-minifier-terser *)
  minify : jsstring → jsstring;
  (** [process.cwd()] *)
  cwd : jsstring
}.

(** What a build prints, by call site. *)
Inductive event :=
  | WarnImageNotFound (localFilePath : jsstring)
  | LogOptimized (fileName : jsstring) (widths : list number)
  | LogPage (edgeKey : jsstring)
  | LogFragment (edgeKey : jsstring)
  | ErrLayoutMissing (layoutName : jsstring)
  | WarnNoSeparator (file : jsstring)
  | WarnCollision (slug : jsstring)
  | LogVersionedFragment (name version : jsstring)
  | LogVersionedPage (name : jsstring)
  | LogEdgeScript
  | LogBuildComplete.

(** ** [src/unnamed/part_001]: the image optimizer *)

Module ImageOptimizer.
Import Regex.

Definition DEFAULT_SIZES : list number := [Num 480; Num 800; Num 1200].
Definition QUALITY : Z := 80.

(** One match of [imgRegex]: the whole match and its five groups. *)
Record img_match := {
  originalTag : jsstring;
  beforeSrc : jsstring;
  srcPath : jsstring;
  between : jsstring;
  optValue : option jsstring;
  after : jsstring
}.

(** [imgRegex], tried at the head of [s]: the word <img and white space;
    group 1, lazy, without >; the word src= and a quote; group 2, greedy, at
    least one code unit, without quotes; a quote; group 3, lazy, without >;
    the word data-opt; optionally = and group 4, greedy, without quotes,
    between two quotes; group 5, lazy, without >; and >.  A quote is a
    double or a single quote, and the two need not agree. *)
Definition imgRegex (s : jsstring) : option (img_match * jsstring) :=
  lit (js "<img") s (fun s1 =>
  plus_greedy is_space s1 (fun _ s2 =>
  star_lazy not_gt [] s2 (fun g1 s3 =>
  lit (js "src=") s3 (fun s4 =>
  one is_quote s4 (fun _ s5 =>
  plus_greedy not_quote s5 (fun g2 s6 =>
  one is_quote s6 (fun _ s7 =>
  star_lazy not_gt [] s7 (fun g3 s8 =>
  lit (js "data-opt") s8 (fun s9 =>
  let tail (g4 : option jsstring) (s10 : jsstring) :=
    star_lazy not_gt [] s10 (fun g5 s11 =>
    lit (js ">") s11 (fun rest =>
    Some ({| originalTag := take (length s - length rest) s;
             beforeSrc := g1; srcPath := g2; between := g3;
             optValue := g4; after := g5 |}, rest))) in
  match
    lit (js "=") s9 (fun s10 =>
    one is_quote s10 (fun _ s11 =>
    star_greedy not_quote [] s11 (fun g4 s12 =>
    one is_quote s12 (fun _ s13 => tail (Some g4) s13))))
  with
  | Some r => Some r
  | None => tail None s9
  end))))))))).

Section WithRuntime.
Context {rt : Runtime}.

(** [p.split(path.sep).join('/')] *)
Definition normalizePath (p : jsstring) : jsstring :=
  join (js "/") (split p path_sep).

Definition cleanPath (m : img_match) : jsstring :=
  if startsWith (srcPath m) (js "/") then slice1 (srcPath m) else srcPath m.

Definition localFilePath (m : img_match) : jsstring :=
  path_join [cwd; js "src"; cleanPath m].

(** One token of the marker value: ["200"] or ["400x400"]. *)
Definition parse_size (s : jsstring) : size :=
  let parts := split (trim s) (js "x") in
  {| width := parseInt (parts !!! 0%nat);
     height :=
       match parts !! 1%nat with
       | Some p => if p is [] then None else Some (parseInt p)
       | None => None
       end |}.

Definition sizesToProcess (m : img_match) : list size :=
  match optValue m with
  | Some (c :: v) => parse_size <$> split (c :: v) (js ",")
  | _ => (fun w => {| width := w; height := None |}) <$> DEFAULT_SIZES
  end.

Definition fileName (m : img_match) : jsstring :=
  let fileExt := path_extname (localFilePath m) in
  replace (path_basename (localFilePath m) fileExt) (js ".raw") [].

Definition dirName (m : img_match) : jsstring :=
  normalizePath (path_dirname (srcPath m)).

Definition fsDirName (m : img_match) : jsstring :=
  normalizePath (path_dirname (cleanPath m)).

Definition suffix (sz : size) : jsstring :=
  if has_height sz then
    number_to_string (width sz) ++ js "x"
      ++ number_to_string (default NaN (height sz))
  else number_to_string (width sz).

Definition outFileName (m : img_match) (sz : size) : jsstring :=
  fileName m ++ js "-" ++ suffix sz ++ js ".webp".

Definition outPath (m : img_match) (sz : size) : jsstring :=
  path_join [cwd; js "public"; fsDirName m; outFileName m sz].

Definition resize_of (sz : size) : resize :=
  if has_height sz then ResizeCover (width sz) (default NaN (height sz))
  else ResizeWidth (width sz).

Definition variant_of (m : img_match) (sz : size) : variant :=
  {| v_source := localFilePath m; v_resize := resize_of sz;
     v_quality := QUALITY; v_target := outPath m sz |}.

(** The text one size contributes to [srcset]: ["<url> <width>w"]. *)
Definition descriptor (m : img_match) (sz : size) : jsstring :=
  dirName m ++ js "/" ++ outFileName m sz ++ js " "
    ++ number_to_string (width sz) ++ js "w".

Definition srcSetString (m : img_match) : jsstring :=
  join (js ", ") (descriptor m <$> sizesToProcess m).

(** The element without its marker and with its [srcset]. *)
Definition newTag (m : img_match) : jsstring :=
  collapse_spaces
    (js "<img " ++ beforeSrc m ++ js " src=" ++ quoted (srcPath m)
       ++ js " srcset=" ++ quoted (srcSetString m) ++ js " " ++ between m
       ++ js " " ++ after m ++ js ">").

(** One size of one element: make the directory, and encode the rendition
    unless a file of that name is there already. *)
Definition derive (m : img_match) (acc : FS * list variant) (sz : size)
    : FS * list variant :=
  let '(fs, done) := acc in
  let fs := mkdir fs (path_dirname (outPath m sz)) in
  if existsSync fs (outPath m sz) then (fs, done)
  else (toFile fs (variant_of m sz), done ++ [variant_of m sz]).

Record processed := {
  html_out : jsstring;
  fs_out : FS;
  derived : list variant;
  printed : list event
}.

(** [processImages(html, cwd)].  The source files of all matches are looked
    up before the first rendition is written. *)
Definition processImages (fs : FS) (html : jsstring) : processed :=
  let matches := matchAll imgRegex html in
  let found m := existsSync fs (localFilePath m) in
  let result m := (originalTag m, if found m then newTag m else originalTag m) in
  let '(fs', vs) :=
    foldl (fun acc m => if found m then foldl (derive m) acc (sizesToProcess m)
                        else acc)
          (fs, []) matches in
  {| html_out := foldl (fun h '(o, n) => replace h o n) html (result <$> matches);
     fs_out := fs';
     derived := vs;
     printed :=
       (fun m => if found m then LogOptimized (fileName m) (width <$> sizesToProcess m)
                 else WarnImageNotFound (localFilePath m)) <$> matches |}.
End WithRuntime.

End ImageOptimizer.

(** ** The header of a document *)

Module Header.
Import Regex.

(** [/<(\w+)>([\s\S]*?)<\/\1>/] tried at the head of [s]: the tag name and
    the text between the opening tag and the nearest closing tag of that
    name. *)
Definition metaRegex (s : jsstring) : option ((jsstring * jsstring) * jsstring) :=
  lit (js "<") s (fun s1 =>
  plus_greedy is_word s1 (fun name s2 =>
  lit (js ">") s2 (fun s3 =>
  star_lazy any [] s3 (fun inner s4 =>
  lit (js "</") s4 (fun s5 =>
  lit name s5 (fun s6 =>
  lit (js ">") s6 (fun rest => Some ((name, inner), rest)))))))).

(** [parseMetadata(rawHeader)]: every match stores its trimmed inner text
    under its tag name, in the order of the matches. *)
Definition parseMetadata (rawHeader : jsstring) : gmap (list N) (list N) :=
  foldl (fun metadata '(k, v) => obj_set k (trim v) metadata) ∅
        (matchAll metaRegex rawHeader).

(** The delimiter line of a page. *)
Definition delimiter : jsstring := js "------".

(** [parts[0]] and [parts[1].trim()] of [rawFile.split('------')]. *)
Definition page_header (rawFile : jsstring) : jsstring :=
  split rawFile delimiter !!! 0%nat.

Definition page_body (rawFile : jsstring) : jsstring :=
  trim (split rawFile delimiter !!! 1%nat).

(** [metadata.layout || 'base'] *)
Definition layout_name (metadata : gmap (list N) (list N)) : jsstring :=
  match metadata !! js "layout" with
  | Some (c :: name) => c :: name
  | _ => js "base"
  end.

End Header.

(** ** State and inputs shared by the three builds *)

(** A directory listing with the text of every file, in listing order. *)
Abbreviation listing := (list (list N * list N)).

(** The layout modules: the function exported by [<name>.js], if that file
    exists.  It receives the data record as a dictionary. *)
Abbreviation layouts := (list N → option (gmap (list N) (list N) → list N)).

Record build_state {rt : Runtime} := {
  fs : FS;
  (** the route table under construction *)
  edgeStore : gmap (list N) (list N);
  (** the pages written so far: output path and text *)
  disk : gmap (list N) (list N);
  (** the table inside [worker.js], once that file is written *)
  worker : option (gmap (list N) (list N));
  console : list event
}.

(** The state a build starts from: nothing stored, written or printed. *)
Definition start {rt : Runtime} (fs0 : FS) : build_state :=
  {| fs := fs0; edgeStore := ∅; disk := ∅; worker := None; console := [] |}.

(** A response of an edge script: an answer with body and headers, or the
    request handed to [fetch] as it came. *)
Inductive response :=
  | Respond (body : jsstring) (headers : list (jsstring * jsstring))
  | PassThrough.

Definition is_home (slug : jsstring) : bool :=
  str_eqb slug (js "home") || str_eqb slug (js "index").

(** ** [src/index.js], first document: one content directory *)

Module BuildPages.
Import Header ImageOptimizer.

Section WithRuntime.
Context {rt : Runtime}.

Definition OUT_DIR : jsstring := path_join [cwd; js "public"].
Definition EDGE_OUT_DIR : jsstring := path_join [cwd; js "edgescript"].

Definition edgeKey (slug : jsstring) : jsstring :=
  if is_home slug then js "/" else js "/" ++ slug.

Definition outPath (slug : jsstring) : jsstring :=
  if is_home slug then path_join [OUT_DIR; js "index.html"]
  else path_join [OUT_DIR; slug ++ js ".html"].

(** The body of the loop over [files]. *)
Definition step (ls : layouts) (st : build_state) (entry : list N * list N)
    : build_state :=
  let '(file, rawFile) := entry in
  if negb (endsWith file (js ".fx")) then st
  else
    let slug := replace file (js ".fx") [] in
    if includes rawFile delimiter then
      (* === PAGE === *)
      let headerRaw := page_header rawFile in
      let pass1 := processImages (fs st) (page_body rawFile) in
      let contentHtml := html_out pass1 in
      let store := obj_set (edgeKey slug) (minify contentHtml) (edgeStore st) in
      let metadata := obj_set (js "content") contentHtml (parseMetadata headerRaw) in
      let layoutName := layout_name metadata in
      match ls layoutName with
      | None =>
          {| fs := fs_out pass1; edgeStore := store; disk := disk st;
             worker := worker st;
             console := console st ++ printed pass1 ++ [ErrLayoutMissing layoutName] |}
      | Some layoutFn =>
          let pass2 := processImages (fs_out pass1) (layoutFn metadata) in
          let fullHtml := minify (html_out pass2) in
          {| fs := writeFile (fs_out pass2) (outPath slug);
             edgeStore := store;
             disk := <[outPath slug := fullHtml]> (disk st);
             worker := worker st;
             console := console st ++ printed pass1 ++ printed pass2
                          ++ [LogPage (edgeKey slug)] |}
      end
    else
      (* === FRAGMENT === *)
      let pass1 := processImages (fs st) (trim rawFile) in
      {| fs := fs_out pass1;
         edgeStore := obj_set (edgeKey slug) (minify (html_out pass1)) (edgeStore st);
         disk := disk st;
         worker := worker st;
         console := console st ++ printed pass1 ++ [LogFragment (edgeKey slug)] |}.

(** The worker generated from the table [partials]; [pathname] is
    [new URL(request.url).pathname]. *)
Definition handleRequest (partials : gmap (list N) (list N))
    (pathname : jsstring) : response :=
  match partials !! pathname with
  | Some (c :: html) =>
      Respond (c :: html)
        [(js "Content-Type", js "text/html; charset=utf-8");
         (js "Cache-Control", js "public, max-age=60")]
  | _ => PassThrough
  end.

Definition build (fs0 : FS) (files : listing) (ls : layouts) : build_state :=
  let st := foldl (step ls) (start fs0) files in
  {| fs := writeFile (fs st) (path_join [EDGE_OUT_DIR; js "worker.js"]);
     edgeStore := edgeStore st; disk := disk st;
     worker := Some (edgeStore st);
     console := console st ++ [LogBuildComplete] |}.
End WithRuntime.

End BuildPages.

(** ** [src/index.js], second document: versioned fragments *)

Module BuildVersioned.
Import Header ImageOptimizer.

(** [crypto.createHash("sha1").update(s).digest("hex").slice(0, 8)] *)
Definition hash (s : jsstring) : jsstring :=
  let '(h0, _, _, _, _) := Sha1.sha1 (Sha1.utf8 s) in Sha1.hex32 h0.

(** The headers [H] of the edge script. *)
Definition H : list (jsstring * jsstring) :=
  [(js "Content-Type", js "text/html;charset=utf-8");
   (js "Cache-Control", js "public,max-age=31536000,immutable")].

(** The listener of the edge script, with the table [P] and the request
    URL [u]: [i = u.indexOf("/__fx/", 8)], then [P[u.slice(i)]]. *)
Definition edgeScript (P : gmap (list N) (list N)) (u : jsstring) : response :=
  match indexOf u (js "/__fx/") 8 with
  | Some i =>
      match P !! drop i u with
      | Some h => Respond h H
      | None => PassThrough
      end
  | None => PassThrough
  end.

Section WithRuntime.
Context {rt : Runtime}.

Definition OUT : jsstring := path_join [cwd; js "public"].
Definition EDGE : jsstring := path_join [cwd; js "edgescript"].

Definition is_fx (entry : list N * list N) : bool := endsWith entry.1 (js ".fx").

(** [fs.existsSync(FRAGMENTS) ? fs.readdirSync(FRAGMENTS).filter(..) : []] *)
Definition fragmentFiles (fragments : option listing) : listing :=
  match fragments with
  | Some files => filter (fun e => is_fx e = true) files
  | None => []
  end.

(** What both fragment loops compute for a file: trim, optimize, minify. *)
Definition render (fs : FS) (text : jsstring) : FS * jsstring * list event :=
  let pass := processImages fs (trim text) in
  (fs_out pass, minify (html_out pass), printed pass).

(** The first loop: [fragmentPayload += html]. *)
Definition payload_step (acc : FS * jsstring * list event) (entry : list N * list N)
    : FS * jsstring * list event :=
  let '(fs, fragmentPayload, out) := acc in
  let '(fs', html, printed) := render fs entry.2 in
  (fs', fragmentPayload ++ html, out ++ printed).

(** [hash(fragmentPayload || "fx")] *)
Definition FX_VERSION (fragmentPayload : jsstring) : jsstring :=
  hash (if fragmentPayload is [] then js "fx" else fragmentPayload).

Definition routeKey (version name : jsstring) : jsstring :=
  js "/__fx/v" ++ version ++ js "/" ++ name.

(** The second loop: one entry of [fragmentStore] per file. *)
Definition store_step (version : jsstring) (st : build_state)
    (entry : list N * list N) : build_state :=
  let name := replace entry.1 (js ".fx") [] in
  let '(fs', html, printed) := render (fs st) entry.2 in
  {| fs := fs';
     edgeStore := obj_set (routeKey version name) html (edgeStore st);
     disk := disk st;
     worker := worker st;
     console := console st ++ printed ++ [LogVersionedFragment name version] |}.

(** How a run of the script ends: at its last line, or at an exception
    with the state reached so far. *)
Inductive outcome :=
  | Completed (st : build_state)
  | Threw (st : build_state).

(** The body of the loop over [pageFiles]; it throws when the import of
    the layout module does.  The callback given to [head.replace] fills
    [meta] as [parseMetadata] does. *)
Definition page_step (ls : layouts) (version : jsstring) (st : build_state)
    (entry : list N * list N) : outcome :=
  let '(f, raw) := entry in
  let '(head, html) :=
    if includes raw delimiter then (page_header raw, page_body raw)
    else ([], trim raw) in
  let meta := parseMetadata head in
  let pass1 := processImages (fs st) html in
  match ls (layout_name meta) with
  | None =>
      Threw {| fs := fs_out pass1; edgeStore := edgeStore st; disk := disk st;
               worker := worker st; console := console st ++ printed pass1 |}
  | Some layoutFn =>
      let page :=
        layoutFn (<[js "fxVersion" := version]> (<[js "body" := html_out pass1]> meta)) in
      let pass2 := processImages (fs_out pass1) page in
      let name := replace f (js ".fx") [] in
      let out := if is_home name then js "index.html" else name ++ js ".html" in
      Completed
           {| fs := writeFile (fs_out pass2) (path_join [OUT; out]);
              edgeStore := edgeStore st;
              disk := <[path_join [OUT; out] := minify (html_out pass2)]> (disk st);
              worker := worker st;
              console := console st ++ printed pass1 ++ printed pass2
                           ++ [LogVersionedPage name] |}
  end.

Fixpoint pages_loop (ls : layouts) (version : jsstring) (st : build_state)
    (pageFiles : listing) : outcome :=
  match pageFiles with
  | [] => Completed st
  | entry :: rest =>
      match page_step ls version st entry with
      | Completed st' => pages_loop ls version st' rest
      | Threw st' => Threw st'
      end
  end.

(** The state after the two fragment loops. *)
Definition fragments_done (fs0 : FS) (fragments : option listing) : build_state :=
  let '(fs1, fragmentPayload, out) :=
    foldl payload_step (fs0, [], []) (fragmentFiles fragments) in
  foldl (store_step (FX_VERSION fragmentPayload))
    {| fs := fs1; edgeStore := ∅; disk := ∅; worker := None; console := out |}
    (fragmentFiles fragments).

(** The fingerprint of a build. *)
Definition build_version (fs0 : FS) (fragments : option listing) : jsstring :=
  FX_VERSION (foldl payload_step (fs0, [], []) (fragmentFiles fragments)).1.2.

(** The whole script. *)
Definition build (fs0 : FS) (fragments : option listing) (pages : listing)
    (ls : layouts) : outcome :=
  match pages_loop ls (build_version fs0 fragments) (fragments_done fs0 fragments)
          (filter (fun e => is_fx e = true) pages) with
  | Threw st => Threw st
  | Completed st =>
      Completed
        {| fs := writeFile (fs st) (path_join [EDGE; js "worker.js"]);
           edgeStore := edgeStore st; disk := disk st;
           worker := Some (edgeStore st);
           console := console st ++ [LogEdgeScript; LogBuildComplete] |}
  end.
End WithRuntime.

End BuildVersioned.

(** ** [src/unnamed/part_000]: pages and fragments in separate directories *)

Module BuildSplit.
Import Header ImageOptimizer.

Section WithRuntime.
Context {rt : Runtime}.

Definition OUT_DIR : jsstring := path_join [cwd; js "public"].
Definition EDGE_DIR : jsstring := path_join [cwd; js "edgescript"].

Definition edgeKey (slug : jsstring) : jsstring :=
  if is_home slug then js "/" else js "/" ++ slug.

Definition outPath (slug : jsstring) : jsstring :=
  if is_home slug then path_join [OUT_DIR; js "index.html"]
  else path_join [OUT_DIR; slug ++ js ".html"].

(** What the loop over [pageFiles] takes from a file: the header and the
    trimmed content, with the warning for a file without delimiter. *)
Definition split_page (file rawFile : jsstring) : jsstring * jsstring * list event :=
  if includes rawFile delimiter then (page_header rawFile, page_body rawFile, [])
  else ([], trim rawFile, [WarnNoSeparator file]).

(** The body of the loop over [pageFiles]. *)
Definition page_step (ls : layouts) (st : build_state) (entry : list N * list N)
    : build_state :=
  let '(file, rawFile) := entry in
  if negb (endsWith file (js ".fx")) then st
  else
    let slug := replace file (js ".fx") [] in
    let '(headerRaw, content, warned) := split_page file rawFile in
    let pass1 := processImages (fs st) content in
    let contentHtml := html_out pass1 in
    let store := obj_set (edgeKey slug) (minify contentHtml) (edgeStore st) in
    let metadata := obj_set (js "body") contentHtml (parseMetadata headerRaw) in
    let layoutName := layout_name metadata in
    match ls layoutName with
    | None =>
        {| fs := fs_out pass1; edgeStore := store; disk := disk st;
           worker := worker st;
           console := console st ++ warned ++ printed pass1
                        ++ [ErrLayoutMissing layoutName] |}
    | Some layoutFn =>
        let pass2 := processImages (fs_out pass1) (layoutFn metadata) in
        let fullHtml := minify (html_out pass2) in
        {| fs := writeFile (fs_out pass2) (outPath slug);
           edgeStore := store;
           disk := <[outPath slug := fullHtml]> (disk st);
           worker := worker st;
           console := console st ++ warned ++ printed pass1 ++ printed pass2
                        ++ [LogPage (edgeKey slug)] |}
    end.

(** [if (edgeStore[edgeKey])]: the entry is there and is not empty. *)
Definition truthy_entry (store : gmap (list N) (list N)) (key : jsstring) : bool :=
  match store !! key with
  | Some (_ :: _) => true
  | _ => false
  end.

(** The body of the loop over [fragmentFiles]. *)
Definition fragment_step (st : build_state) (entry : list N * list N) : build_state :=
  let '(file, text) := entry in
  if negb (endsWith file (js ".fx")) then st
  else
    let slug := replace file (js ".fx") [] in
    let edgeKey := js "/" ++ slug in
    let warned :=
      if truthy_entry (edgeStore st) edgeKey then [WarnCollision slug] else [] in
    let pass := processImages (fs st) (trim text) in
    {| fs := fs_out pass;
       edgeStore := obj_set edgeKey (minify (html_out pass)) (edgeStore st);
       disk := disk st;
       worker := worker st;
       console := console st ++ warned ++ printed pass ++ [LogFragment edgeKey] |}.

(** The worker generated from the table [fragments]; [pathname] is
    [new URL(request.url).pathname]. *)
Definition handleRequest (fragments : gmap (list N) (list N))
    (pathname : jsstring) : response :=
  match fragments !! pathname with
  | Some (c :: html) =>
      Respond (c :: html)
        [(js "Content-Type", js "text/html; charset=utf-8");
         (js "Cache-Control", js "public, max-age=60")]
  | _ => PassThrough
  end.

(** [build()]; [fragments] is [None] when the fragment directory does not
    exist. *)
Definition build (fs0 : FS) (pages : listing) (fragments : option listing)
    (ls : layouts) : build_state :=
  let st1 := foldl (page_step ls) (start fs0) pages in
  let st2 := foldl fragment_step st1 (default [] fragments) in
  {| fs := writeFile (fs st2) (path_join [EDGE_DIR; js "worker.js"]);
     edgeStore := edgeStore st2; disk := disk st2;
     worker := Some (edgeStore st2);
     console := console st2 ++ [LogBuildComplete] |}.
End WithRuntime.

End BuildSplit.

(** ** A runtime to run the scripts on concrete inputs

    POSIX paths ([path.sep] is a slash), a file system that is the list of
    the paths that exist, and a minifier that returns its input: the inputs
    below are markup that html-minifier-terser leaves as it is. *)

Module Demo.

Definition slash : N := 47.
Definition is_slash (c : N) : bool := c =? slash.

(** [normalizeString]: drop empty and [.] segments, resolve [..]. *)
Fixpoint normalize_segments (allowAboveRoot : bool) (segs done : list jsstring)
    : list jsstring :=
  match segs with
  | [] => rev done
  | seg :: segs' =>
      if str_eqb seg [] || str_eqb seg (js ".") then
        normalize_segments allowAboveRoot segs' done
      else if str_eqb seg (js "..") then
        match done with
        | d :: done' =>
            if str_eqb d (js "..") then normalize_segments allowAboveRoot segs' (seg :: done)
            else normalize_segments allowAboveRoot segs' done'
        | [] =>
            normalize_segments allowAboveRoot segs'
              (if allowAboveRoot then [seg] else [])
        end
      else normalize_segments allowAboveRoot segs' (seg :: done)
  end.

(** [path.posix.normalize] *)
Definition normalize (p : jsstring) : jsstring :=
  let isAbsolute := startsWith p (js "/") in
  let trailing := endsWith p (js "/") in
  let body := join (js "/") (normalize_segments (negb isAbsolute) (split p (js "/")) []) in
  match body with
  | [] => if isAbsolute then js "/" else if trailing then js "./" else js "."
  | _ =>
      (if isAbsolute then js "/" else []) ++ body ++ (if trailing then js "/" else [])
  end.

(** [path.posix.join] *)
Definition posix_join (parts : list jsstring) : jsstring :=
  match filter (fun p : jsstring => p ≠ []) parts with
  | [] => js "."
  | ps => normalize (join (js "/") ps)
  end.

Fixpoint drop_while (p : N → bool) (s : jsstring) : jsstring :=
  match s with
  | c :: s' => if p c then drop_while p s' else s
  | [] => []
  end.

Fixpoint take_while (p : N → bool) (s : jsstring) : jsstring :=
  match s with
  | c :: s' => if p c then c :: take_while p s' else []
  | [] => []
  end.

(** [path.posix.dirname] *)
Definition posix_dirname (p : jsstring) : jsstring :=
  match p with
  | [] => js "."
  | c :: t =>
      let hasRoot := is_slash c in
      match drop_while (fun c => negb (is_slash c)) (drop_while is_slash (rev t)) with
      | [] => if hasRoot then js "/" else js "."
      | _ :: before =>
          if hasRoot && str_eqb before [] then js "//" else c :: rev before
      end
  end.

(** The last segment of a path, trailing slashes apart. *)
Definition last_segment (p : jsstring) : jsstring :=
  rev (take_while (fun c => negb (is_slash c)) (drop_while is_slash (rev p))).

(** [path.posix.basename(p, ext)] *)
Definition posix_basename (p ext : jsstring) : jsstring :=
  let base := last_segment p in
  if negb (str_eqb ext []) && endsWith base ext && negb (str_eqb base ext)
  then take (length base - length ext) base
  else base.

(** [path.posix.extname]: from the last dot of the last segment, unless
    that dot starts the segment or the segment is [..]. *)
Definition posix_extname (p : jsstring) : jsstring :=
  let base := last_segment p in
  let ext := rev (take_while (fun c => negb (c =? 46)) (rev base)) in
  if str_eqb base (js "..") then []
  else if (length ext + 1 <? length base)%nat then 46 :: ext
  else [].

Definition add_path (fs : list jsstring) (p : jsstring) : list jsstring :=
  if bool_decide (p ∈ fs) then fs else fs ++ [p].

#[export] Instance runtime : Runtime := {|
  FS := list jsstring;
  existsSync fs p := bool_decide (p ∈ fs);
  mkdir := add_path;
  toFile fs v := add_path fs (v_target v);
  writeFile := add_path;
  path_sep := js "/";
  path_join := posix_join;
  path_dirname := posix_dirname;
  path_basename := posix_basename;
  path_extname := posix_extname;
  minify html := html;
  cwd := js "/site"
|}.

End Demo.

(** ** Vocabulary of the statements *)

Module Notions.
Import Header ImageOptimizer.

(** [s] is [a], then the first occurrence of [sep], then [b]. *)
Definition first_split (sep s a b : jsstring) : Prop :=
  s = a ++ sep ++ b ∧
  ∀ a' b', s = a' ++ sep ++ b' → (length a ≤ length a')%nat.

(** [sep] occurs nowhere in [s]. *)
Definition absent (sep s : jsstring) : Prop :=
  ∀ a b, s ≠ a ++ sep ++ b.

(** The text [<name>inner</name>]. *)
Definition tag_pair (name inner : jsstring) : jsstring :=
  js "<" ++ name ++ js ">" ++ inner ++ js "</" ++ name ++ js ">".


Definition lt_sign : N := 60.


(** The inner text of the last match of the header scan named [k]. *)
Definition last_match (k : jsstring) (matches : list (jsstring * jsstring))
    : option jsstring :=
  snd <$> last (filter (fun m => m.1 = k) matches).

(** The edge script's marker stands at index [i] of the URL [u], at or
    after index 8. *)
Definition marker_at (u : jsstring) (i : nat) : Prop :=
  (8 ≤ i)%nat ∧ ∃ rest, drop i u = js "/__fx/" ++ rest.

Section WithRuntime.
Context {rt : Runtime}.

(** The minified payloads of the fragment files, in listing order, each
    computed on the file system the one before it left. *)
Fixpoint payloads (fs : FS) (files : listing) : list jsstring :=
  match files with
  | [] => []
  | entry :: rest =>
      let '(fs', html, _) := BuildVersioned.render fs entry.2 in
      html :: payloads fs' rest
  end.


(** The descriptor of that rendition with a width token. *)
Definition expected_descriptor (m : img_match) (suffix width : jsstring)
    : jsstring :=
  dirName m ++ js "/" ++ fileName m ++ js "-" ++ suffix ++ js ".webp"
    ++ js " " ++ width ++ js "w".
End WithRuntime.

End Notions.

(** ** Inputs for the worked examples *)

Module Fixtures.

(** A layout module in the style of the README:
    [(data) => "<html><body>" + data.body + "</body></html>"], where the
    body is the field [body] (or [content] in the oldest script). *)
Definition base_layout (data : gmap (list N) (list N)) : list N :=
  js "<html><body>" ++ default [] (data !! js "body")
    ++ default [] (data !! js "content") ++ js "</body></html>".

(** A layout directory that holds [base.js] only. *)
Definition only_base : layouts :=
  fun name => if str_eqb name (js "base") then Some base_layout else None.

(** A project whose only asset is [src/assets/a.jpg]. *)
Definition one_asset : list (list N) := [js "/site/src/assets/a.jpg"].

(** A marked image of width 300, the match the optimizer takes from it, and
    the rendition it encodes. *)
Definition marked_image : jsstring := js "<img src='/assets/a.jpg' data-opt='300'>".

Definition marked_image_match : ImageOptimizer.img_match :=
  {| ImageOptimizer.originalTag := marked_image;
     ImageOptimizer.beforeSrc := [];
     ImageOptimizer.srcPath := js "/assets/a.jpg";
     ImageOptimizer.between := js " ";
     ImageOptimizer.optValue := Some (js "300");
     ImageOptimizer.after := [] |}.

Definition rendition_300 : variant :=
  {| v_source := js "/site/src/assets/a.jpg";
     v_resize := ResizeWidth (Num 300);
     v_quality := 80;
     v_target := js "/site/public/assets/a-300.webp" |}.

(** A fragment directory with one file, and an origin without path. *)
Definition one_fragment : listing := [(js "cart.fx", js "<p>cart</p>")].
Definition origin : jsstring := js "https://shop.io".

End Fixtures.

(** ** Vocabulary of the further properties *)

Module Terms.
Import Header ImageOptimizer.

(** No white space at either end. *)
Definition trimmed (s : jsstring) : Prop :=
  (∀ c t, s = c :: t → is_space c = false)
  ∧ (∀ t c, s = t ++ [c] → is_space c = false).



(** A lower-case hexadecimal digit. *)
Definition is_hex (c : N) : bool :=
  is_digit c || ((97 <=? c) && (c <=? 102)).

(** The text of a separator replaced by a slash, one code unit at a time. *)
Definition slashed (sep : N) (p : jsstring) : jsstring :=
  (fun c => if c =? sep then 47 else c) <$> p.

(** The shape of a text matched by [imgRegex], with its groups. *)
Definition element_text (ws g1 : jsstring) (q1 : N) (g2 : jsstring) (q2 : N)
    (g3 value g5 : jsstring) : jsstring :=
  js "<img" ++ ws ++ g1 ++ js "src=" ++ q1 :: g2 ++ q2 :: g3
    ++ js "data-opt" ++ value ++ g5 ++ js ">".

(** The text of the marker's value, for the group of [imgRegex] that holds
    it: no text when the group did not take part, else the equals sign and
    the value between two quotes. *)
Definition marked_value (value : jsstring) (opt : option jsstring) : Prop :=
  (opt = None ∧ value = [])
  ∨ ∃ (v : jsstring) (q3 q4 : N),
      opt = Some v ∧ value = js "=" ++ q3 :: v ++ [q4]
      ∧ Regex.is_quote q3 = true ∧ Regex.is_quote q4 = true
      ∧ Forall (fun c => Regex.not_quote c = true) v.

(** [tag] reads as a marked image element whose parts are the groups of
    [m]: white space after the word, a quoted source that is not empty, the
    marker after the source, and no closing sign before the last one outside
    the quoted texts. *)
Definition marked_element (tag : jsstring) (m : img_match) : Prop :=
  ∃ (ws : jsstring) (q1 q2 : N) (value : jsstring),
    tag = element_text ws (beforeSrc m) q1 (srcPath m) q2 (between m) value (after m)
    ∧ ws ≠ [] ∧ Forall (fun c => is_space c = true) ws
    ∧ Regex.is_quote q1 = true ∧ Regex.is_quote q2 = true
    ∧ srcPath m ≠ [] ∧ Forall (fun c => Regex.not_quote c = true) (srcPath m)
    ∧ Forall (fun c => Regex.not_gt c = true) (beforeSrc m ++ between m ++ after m)
    ∧ marked_value value (optValue m).



(** In the versioned script: the header a page file is parsed from, and the
    name of the file its page is written to. *)
Definition versioned_head (raw : jsstring) : jsstring :=
  if includes raw delimiter then page_header raw else [].

Definition versioned_out (f : jsstring) : jsstring :=
  if is_home (replace f (js ".fx") []) then js "index.html"
  else replace f (js ".fx") [] ++ js ".html".

(** The slugs whose key is the root path. *)
Definition root_slug (slug : jsstring) : Prop :=
  slug = js "home" ∨ slug = js "index" ∨ slug = [].







End Terms.

(** * Lemmas on strings *)

Section StringFacts.

Lemma strip_prefix_app (w r : jsstring) : strip_prefix w (w ++ r) = Some r.
Proof.
  induction w as [|a w IH]; simpl; [done|].
  by rewrite N.eqb_refl.
Qed.

Lemma strip_prefix_Some (w s r : jsstring) :
  strip_prefix w s = Some r → s = w ++ r.
Proof.
  revert s. induction w as [|a w IH]; intros s Hs; simpl in *.
  - by inversion Hs.
  - destruct s as [|c s]; [done|].
    destruct (a =? c) eqn:E; [|done].
    apply N.eqb_eq in E. subst c. f_equal. by apply IH.
Qed.

Lemma strip_prefix_None (w s : jsstring) :
  strip_prefix w s = None → ∀ r, s ≠ w ++ r.
Proof.
  intros Hn r ->. by rewrite strip_prefix_app in Hn.
Qed.

Lemma break_on_first (sep s a b : jsstring) :
  break_on sep s = Some (a, b) → Notions.first_split sep s a b.
Proof.
  revert a b. induction s as [|c s IH]; intros a b; simpl.
  - destruct (strip_prefix sep []) as [rest|] eqn:E; [|done].
    intros [= <- <-]. split; [by apply (strip_prefix_Some sep)|]. intros; simpl; lia.
  - destruct (strip_prefix sep (c :: s)) as [rest|] eqn:E.
    + intros [= <- <-]. split; [by apply (strip_prefix_Some sep)|]. intros; simpl; lia.
    + destruct (break_on sep s) as [[a0 b0]|] eqn:Eb; [|done].
      intros [= <- <-]. destruct (IH a0 b0 eq_refl) as [-> Hmin].
      split; [done|]. intros [|c' a'] b' Heq.
      * exfalso. by eapply strip_prefix_None.
      * simpl in Heq. injection Heq as -> Heq. simpl.
        specialize (Hmin a' b' Heq). lia.
Qed.

Lemma break_on_None (sep s : jsstring) :
  break_on sep s = None → Notions.absent sep s.
Proof.
  induction s as [|c s IH]; simpl.
  - destruct (strip_prefix sep []) eqn:E; [done|]. intros _ [|x a] b Heq.
    + by eapply strip_prefix_None.
    + done.
  - destruct (strip_prefix sep (c :: s)) eqn:E; [done|].
    destruct (break_on sep s) as [[a0 b0]|] eqn:Eb; [done|].
    intros _ [|x a] b Heq.
    + by eapply strip_prefix_None.
    + simpl in Heq. injection Heq as -> Heq. by eapply IH.
Qed.

Lemma includes_true (s sep : jsstring) :
  includes s sep = true → ∃ a b, Notions.first_split sep s a b.
Proof.
  unfold includes. destruct (break_on sep s) as [[a b]|] eqn:E; [|done].
  intros _. exists a, b. by apply break_on_first.
Qed.

Lemma includes_false (s sep : jsstring) :
  includes s sep = false → Notions.absent sep s.
Proof.
  unfold includes. destruct (break_on sep s) as [[a b]|] eqn:E; [done|].
  intros _. by apply break_on_None.
Qed.

Lemma first_split_unique (sep s a b a' b' : jsstring) :
  Notions.first_split sep s a b → Notions.first_split sep s a' b' → a = a' ∧ b = b'.
Proof.
  intros [E1 M1] [E2 M2].
  assert (length a = length a') as Hlen.
  { specialize (M1 _ _ E2). specialize (M2 _ _ E1). lia. }
  rewrite E1 in E2. apply app_inj_1 in E2 as [-> E2]; [|done].
  by apply app_inv_head in E2 as ->.
Qed.

Lemma break_on_of_first (sep s a b : jsstring) :
  Notions.first_split sep s a b → break_on sep s = Some (a, b).
Proof.
  intros Hf. destruct (break_on sep s) as [[a0 b0]|] eqn:E.
  - apply break_on_first in E.
    by destruct (first_split_unique _ _ _ _ _ _ E Hf) as [-> ->].
  - apply break_on_None in E. destruct Hf as [Hf _]. by destruct (E a b).
Qed.


End StringFacts.

(** * Lemmas on the matchers: what a successful match has read *)

Section MatcherFacts.
Import Regex.
Context {R : Type}.

Lemma lit_Some (w s : jsstring) (k : jsstring → option R) (r : R) :
  lit w s k = Some r → ∃ s', s = w ++ s' ∧ k s' = Some r.
Proof.
  unfold lit. destruct (strip_prefix w s) as [s'|] eqn:E; [|done].
  intros Hk. exists s'. split; [by apply strip_prefix_Some|done].
Qed.

Lemma one_Some (p : N → bool) (s : jsstring) (k : N → jsstring → option R) (r : R) :
  one p s k = Some r → ∃ c s', s = c :: s' ∧ p c = true ∧ k c s' = Some r.
Proof.
  unfold one. destruct s as [|c s']; [done|].
  destruct (p c) eqn:E; [|done]. intros Hk. by exists c, s'.
Qed.

Lemma star_lazy_Some (p : N → bool) (acc s : jsstring)
    (k : jsstring → jsstring → option R) (r : R) :
  star_lazy p acc s k = Some r →
  ∃ pre post, s = pre ++ post ∧ Forall (fun c => p c = true) pre
              ∧ k (acc ++ pre) post = Some r.
Proof.
  revert acc. induction s as [|c s IH]; intros acc; simpl.
  - destruct (k acc []) eqn:E; [|done]. intros [= ->].
    exists [], []. rewrite !app_nil_r. split_and!; [done|constructor|done].
  - destruct (k acc (c :: s)) eqn:E.
    + intros [= ->]. exists [], (c :: s). rewrite !app_nil_r. split_and!; [done|constructor|done].
    + destruct (p c) eqn:Ep; [|done]. intros Hs.
      destruct (IH _ Hs) as (pre & post & -> & Hall & Hk).
      exists (c :: pre), post. rewrite <- app_assoc in Hk.
      split_and!; [done|by constructor|done].
Qed.

Lemma star_greedy_Some (p : N → bool) (acc s : jsstring)
    (k : jsstring → jsstring → option R) (r : R) :
  star_greedy p acc s k = Some r →
  ∃ pre post, s = pre ++ post ∧ Forall (fun c => p c = true) pre
              ∧ k (acc ++ pre) post = Some r.
Proof.
  revert acc. induction s as [|c s IH]; intros acc; simpl.
  - intros Hk. exists [], []. rewrite !app_nil_r. split_and!; [done|constructor|done].
  - destruct (p c) eqn:Ep.
    + destruct (star_greedy p (acc ++ [c]) s k) eqn:E.
      * intros [= ->]. destruct (IH _ E) as (pre & post & -> & Hall & Hk).
        exists (c :: pre), post. rewrite <- app_assoc in Hk.
        split_and!; [done|by constructor|done].
      * intros Hk. exists [], (c :: s). rewrite !app_nil_r. split_and!; [done|constructor|done].
    + intros Hk. exists [], (c :: s). rewrite !app_nil_r. split_and!; [done|constructor|done].
Qed.

Lemma plus_greedy_Some (p : N → bool) (s : jsstring)
    (k : jsstring → jsstring → option R) (r : R) :
  plus_greedy p s k = Some r →
  ∃ pre post, s = pre ++ post ∧ pre ≠ [] ∧ Forall (fun c => p c = true) pre
              ∧ k pre post = Some r.
Proof.
  unfold plus_greedy. intros Hs.
  apply one_Some in Hs as (c & s' & -> & Hp & Hs).
  apply star_greedy_Some in Hs as (pre & post & -> & Hall & Hk).
  exists (c :: pre), post. split_and!; [done|done|by constructor|done].
Qed.
End MatcherFacts.

Section ScanFacts.
Import Regex.
Context {M : Type}.

(** Every match of a scan starts somewhere in the input. *)
Lemma scan_elem (at_ : jsstring → option (M * jsstring)) (s : jsstring)
    (skip : nat) (m : M) :
  m ∈ scan at_ s skip →
  ∃ pre post rest, s = pre ++ post ∧ at_ post = Some (m, rest).
Proof.
  revert skip. induction s as [|c s IH]; intros skip; simpl.
  - by intros ?%elem_of_nil.
  - assert (∀ n, m ∈ scan at_ s n →
              ∃ pre post rest, c :: s = pre ++ post ∧ at_ post = Some (m, rest)) as Hrec.
    { intros n Hn. destruct (IH _ Hn) as (pre & post & rest & -> & Hat).
      by exists (c :: pre), post, rest. }
    destruct skip as [|n]; [|by apply Hrec].
    destruct (at_ (c :: s)) as [[m0 rest]|] eqn:E; [|by apply Hrec].
    intros [->|Hin]%elem_of_cons; [|by eapply Hrec].
    by exists [], (c :: s), rest.
Qed.
End ScanFacts.

(** * Lemmas on the header of a page *)

Section HeaderFacts.
Import Regex Header.

Lemma metaRegex_Some (s name inner rest : jsstring) :
  metaRegex s = Some ((name, inner), rest) →
  s = Notions.tag_pair name inner ++ rest ∧ name ≠ []
  ∧ Forall (fun c => is_word c = true) name.
Proof.
  unfold metaRegex. intros Hm.
  apply lit_Some in Hm as (s1 & -> & Hm).
  apply plus_greedy_Some in Hm as (n & s2 & -> & Hne & Hw & Hm).
  apply lit_Some in Hm as (s3 & -> & Hm).
  apply star_lazy_Some in Hm as (i & s4 & -> & _ & Hm).
  apply lit_Some in Hm as (s5 & -> & Hm).
  apply lit_Some in Hm as (s6 & -> & Hm).
  apply lit_Some in Hm as (s7 & -> & Hm).
  injection Hm as <- <- <-. split_and!; [|done|done].
  unfold Notions.tag_pair. by rewrite <- !app_assoc.
Qed.

Lemma obj_set_lookup (k v k' : jsstring) (o : gmap (list N) (list N)) :
  obj_set k v o !! k' =
    if decide (k = k' ∧ k ≠ js "__proto__") then Some v else o !! k'.
Proof.
  unfold obj_set, str_eqb. case_bool_decide as Hp.
  - case_decide as Hd; [by destruct Hd|done].
  - rewrite lookup_insert.
    destruct (decide (k = k')) as [->|Hne].
    + by rewrite decide_True.
    + rewrite decide_False; [done|]. by intros [? _].
Qed.

(** The last match of a name decides its entry. *)
Lemma fold_obj_set_lookup (matches : list (jsstring * jsstring))
    (o : gmap (list N) (list N)) (k : jsstring) :
  k ≠ js "__proto__" →
  foldl (fun metadata '(k, v) => obj_set k (trim v) metadata) o matches !! k =
    match Notions.last_match k matches with
    | Some inner => Some (trim inner)
    | None => o !! k
    end.
Proof.
  intros Hk. revert o. induction matches as [|[k0 v0] l IH]; intros o; [done|].
  cbn [foldl]. rewrite IH. unfold Notions.last_match.
  rewrite filter_cons. cbn [fst]. case_decide as Hd.
  - subst k0. rewrite last_cons.
    destruct (last (filter _ l)) as [[k1 v1]|]; [done|]. simpl.
    rewrite obj_set_lookup. by rewrite decide_True.
  - destruct (last (filter _ l)) as [[k1 v1]|]; [done|]. simpl.
    rewrite obj_set_lookup. rewrite decide_False; [done|]. by intros [? _].
Qed.

Lemma parseMetadata_lookup (rawHeader k : jsstring) :
  k ≠ js "__proto__" →
  parseMetadata rawHeader !! k
    = trim <$> Notions.last_match k (matchAll metaRegex rawHeader).
Proof.
  intros Hk. unfold parseMetadata. rewrite fold_obj_set_lookup; [|done].
  by destruct (Notions.last_match _ _).
Qed.

Lemma parseMetadata_proto (rawHeader : jsstring) :
  parseMetadata rawHeader !! js "__proto__" = None.
Proof.
  unfold parseMetadata.
  generalize (matchAll metaRegex rawHeader).
  assert (∀ l (o : gmap (list N) (list N)), o !! js "__proto__" = None →
    foldl (fun metadata '(k, v) => obj_set k (trim v) metadata) o l
      !! js "__proto__" = None) as Hfold.
  { induction l as [|[k0 v0] l IH]; intros o Ho; [done|].
    cbn [foldl]. apply IH. rewrite obj_set_lookup.
    rewrite decide_False; [done|]. by intros [-> ?]. }
  intros l. by apply Hfold.
Qed.

Lemma last_match_elem (k inner : jsstring) (matches : list (jsstring * jsstring)) :
  Notions.last_match k matches = Some inner → (k, inner) ∈ matches.
Proof.
  unfold Notions.last_match.
  destruct (last (filter _ matches)) as [[k1 v1]|] eqn:E; [|done].
  intros [= <-]. apply last_Some_elem_of in E.
  apply list_elem_of_filter in E as [Hk Hin]. by simpl in Hk; subst k1.
Qed.

(** An entry of the metadata comes from a tag pair of the header. *)
Lemma parseMetadata_sound (rawHeader k v : jsstring) :
  parseMetadata rawHeader !! k = Some v →
  k ≠ js "__proto__" ∧ k ≠ [] ∧ Forall (fun c => is_word c = true) k
  ∧ ∃ pre inner post,
      rawHeader = pre ++ Notions.tag_pair k inner ++ post ∧ v = trim inner.
Proof.
  intros Hv.
  assert (k ≠ js "__proto__") as Hk.
  { intros ->. by rewrite parseMetadata_proto in Hv. }
  rewrite parseMetadata_lookup in Hv; [|done].
  destruct (Notions.last_match k _) as [inner|] eqn:E; [|done].
  injection Hv as <-. apply last_match_elem in E.
  apply scan_elem in E as (pre & post & rest & -> & Hat).
  apply metaRegex_Some in Hat as (-> & Hne & Hw).
  split_and!; [done..|]. by exists pre, inner, rest.
Qed.
Lemma strip_prefix_mismatch (a c : N) (w s : jsstring) :
  a ≠ c → strip_prefix (a :: w) (c :: s) = None.
Proof. intros Hne. simpl. by rewrite (proj2 (N.eqb_neq a c)). Qed.








End HeaderFacts.

(** * C3: what parsing takes from a document with a delimiter *)

Section PageParsing.
Import Regex Header.



End PageParsing.

(** * C5: the dispatch of the versioned edge script *)

Section EdgeDispatch.
Import BuildVersioned.

Lemma startsWith_true (s w : jsstring) :
  startsWith s w = true ↔ ∃ r, s = w ++ r.
Proof.
  unfold startsWith. split.
  - destruct (strip_prefix w s) as [r|] eqn:E; [|done].
    intros _. exists r. by apply strip_prefix_Some.
  - intros [r ->]. by rewrite strip_prefix_app.
Qed.

Lemma startsWith_nil (w : jsstring) : w ≠ [] → startsWith [] w = false.
Proof. by destruct w. Qed.

(** [indexOf] returns the least index from [from] on at which the pattern
    stands. *)
Lemma indexOf_at_Some (pat s : jsstring) (from i j : nat) :
  pat ≠ [] → indexOf_at pat s from i = Some j →
  ∃ n, j = (i + n)%nat ∧ (from ≤ n)%nat
       ∧ startsWith (drop n s) pat = true
       ∧ ∀ m, (from ≤ m < n)%nat → startsWith (drop m s) pat = false.
Proof.
  intros Hpat. revert from i. induction s as [|c s IH]; intros from i.
  - destruct from as [|from]; simpl.
    + by rewrite startsWith_nil.
    + by destruct pat.
  - destruct from as [|from]; simpl.
    + destruct (startsWith (c :: s) pat) eqn:E.
      * intros [= <-]. exists 0%nat. split_and!; [lia|lia|done|lia].
      * intros (n & -> & _ & Hs & Hmin)%IH. exists (S n).
        split_and!; [lia|lia|done|]. intros [|m] Hm; [done|].
        apply Hmin. lia.
    + intros (n & -> & Hn & Hs & Hmin)%IH. exists (S n).
      split_and!; [lia|lia|done|]. intros [|m] Hm; [lia|].
      apply Hmin. lia.
Qed.

Lemma indexOf_at_None (pat s : jsstring) (from i : nat) :
  pat ≠ [] → indexOf_at pat s from i = None →
  ∀ n, (from ≤ n)%nat → startsWith (drop n s) pat = false.
Proof.
  intros Hpat. revert from i. induction s as [|c s IH]; intros from i.
  - intros _ n _. rewrite drop_nil. by apply startsWith_nil.
  - destruct from as [|from]; simpl.
    + destruct (startsWith (c :: s) pat) eqn:E; [done|].
      intros Hn [|n] _; [done|]. simpl. eapply IH; [done|lia].
    + intros Hn [|n] Hle; [lia|]. simpl. eapply IH; [done|lia].
Qed.

Lemma marker_at_startsWith (u : jsstring) (i : nat) :
  Notions.marker_at u i ↔ (8 ≤ i)%nat ∧ startsWith (drop i u) (js "/__fx/") = true.
Proof. unfold Notions.marker_at. by rewrite startsWith_true. Qed.

(** C5, as the code has it.  The script looks up the rest of the request
    URL from the first place, at or after index 8, where the text [/__fx/]
    stands: with an entry it answers with the stored HTML and the headers
    [H]; with no entry, or when the text stands nowhere from index 8 on,
    it hands the request to [fetch]. *)
Theorem C5_edge_dispatch (P : gmap (list N) (list N)) (u : jsstring) :
  H = [(js "Content-Type", js "text/html;charset=utf-8");
       (js "Cache-Control", js "public,max-age=31536000,immutable")]
  ∧ (∀ i, Notions.marker_at u i → (∀ j, Notions.marker_at u j → (i ≤ j)%nat) →
       edgeScript P u =
         match P !! drop i u with
         | Some html => Respond html H
         | None => PassThrough
         end)
  ∧ ((∀ i, ¬ Notions.marker_at u i) → edgeScript P u = PassThrough).
Proof.
  assert (js "/__fx/" ≠ []) as Hpat by (vm_compute; discriminate).
  split; [done|]. unfold edgeScript, indexOf.
  destruct (indexOf_at (js "/__fx/") u 8 0) as [j|] eqn:E.
  - apply indexOf_at_Some in E as (n & -> & Hn & Hs & Hmin); [|done].
    simpl. assert (Notions.marker_at u n) as Hmark.
    { by apply marker_at_startsWith. }
    split.
    + intros i Hi Hleast. assert (i = n) as ->; [|done].
      pose proof (Hleast n Hmark). apply marker_at_startsWith in Hi as [Hi8 Hi].
      destruct (decide (i < n)%nat) as [Hlt|]; [|lia].
      rewrite Hmin in Hi; [done|lia].
    + intros Hno. by destruct (Hno n).
  - split; [|done]. intros i [Hi8 Hi]%marker_at_startsWith _.
    by rewrite (indexOf_at_None _ _ _ _ Hpat E i) in Hi.
Qed.

(** C5 at a request for a fragment route below an origin. *)
Lemma C5_edge_dispatch_witness :
  edgeScript {[ js "/__fx/v06967d8e/cart" := js "<p>cart</p>" ]}
    (js "https://example.com/__fx/v06967d8e/cart")
  = Respond (js "<p>cart</p>") H.
Proof.
  destruct (C5_edge_dispatch {[ js "/__fx/v06967d8e/cart" := js "<p>cart</p>" ]}
              (js "https://example.com/__fx/v06967d8e/cart")) as (_ & Hhit & _).
  rewrite (Hhit 19%nat).
  - vm_compute; reflexivity.
  - split; [lia|]. exists (js "v06967d8e/cart"). vm_compute; reflexivity.
  - intros j [Hj (rest & Hrest)].
    destruct (decide (19 ≤ j)%nat) as [|Hlt]; [done|]. exfalso.
    assert (j ∈ seq 8 11) as Hin by (apply elem_of_seq; lia).
    vm_compute in Hin. 
    repeat (apply elem_of_cons in Hin as [->|Hin]; [vm_compute in Hrest; discriminate|]).
    by apply elem_of_nil in Hin.
Defined.

(** C5 as stated fails.  A request whose path is no key of the table is
    answered from the table when its URL ends in a key (a path prefix
    before [/__fx/] is ignored); and a request whose path is a key is
    passed through when a query string follows the path. *)
Lemma C5_counterexample :
  ({[ js "/__fx/v06967d8e/cart" := js "<p>cart</p>" ]} : gmap (list N) (list N))
    !! js "/shop/__fx/v06967d8e/cart" = None
  ∧ edgeScript {[ js "/__fx/v06967d8e/cart" := js "<p>cart</p>" ]}
      (js "https://example.com" ++ js "/shop/__fx/v06967d8e/cart")
    = Respond (js "<p>cart</p>") H
  ∧ ({[ js "/__fx/v06967d8e/cart" := js "<p>cart</p>" ]} : gmap (list N) (list N))
      !! js "/__fx/v06967d8e/cart" = Some (js "<p>cart</p>")
  ∧ edgeScript {[ js "/__fx/v06967d8e/cart" := js "<p>cart</p>" ]}
      (js "https://example.com" ++ js "/__fx/v06967d8e/cart" ++ js "?x=1")
    = PassThrough.
Proof. split_and!; vm_compute; reflexivity. Qed.
End EdgeDispatch.

(** * C1: the keys of the fragment store *)

Section RouteKeys.
Import Header ImageOptimizer BuildVersioned.
Context {rt : Runtime}.

Lemma payload_fold (files : listing) (fs0 : FS) (acc : jsstring)
    (out : list event) :
  (foldl payload_step (fs0, acc, out) files).1.2
    = acc ++ concat (Notions.payloads fs0 files).
Proof.
  revert fs0 acc out. induction files as [|entry files IH]; intros fs0 acc out.
  - simpl. by rewrite app_nil_r.
  - cbn [foldl Notions.payloads]. unfold payload_step at 2.
    destruct (render fs0 entry.2) as [[fs' html] printed].
    rewrite IH. simpl. by rewrite <- app_assoc.
Qed.

Lemma routeKey_not_proto (version name : jsstring) :
  routeKey version name ≠ js "__proto__".
Proof.
  intros Heq. apply (f_equal (take 1)) in Heq. vm_compute in Heq. discriminate.
Qed.

Lemma store_step_store (version : jsstring) (st : build_state)
    (entry : list N * list N) :
  ∃ html,
    edgeStore (store_step version st entry)
      = <[routeKey version (replace entry.1 (js ".fx") []) := html]> (edgeStore st).
Proof.
  unfold store_step. destruct (render (fs st) entry.2) as [[fs' html] printed].
  exists html. simpl. unfold obj_set, str_eqb.
  rewrite bool_decide_eq_false_2; [done|]. apply routeKey_not_proto.
Qed.

Lemma store_fold_dom (version : jsstring) (files : listing) (st : build_state)
    (k : jsstring) :
  k ∈ dom (edgeStore (foldl (store_step version) st files)) ↔
  k ∈ dom (edgeStore st)
  ∨ ∃ e, e ∈ files ∧ k = routeKey version (replace e.1 (js ".fx") []).
Proof.
  revert st. induction files as [|entry files IH]; intros st.
  - simpl. split; [by left|]. intros [?|(e & ?%elem_of_nil & _)]; done.
  - cbn [foldl]. rewrite IH.
    destruct (store_step_store version st entry) as [html ->].
    rewrite dom_insert_L, elem_of_union, elem_of_singleton. split.
    + intros [[->|Hk]|(e & He & ->)].
      * right. exists entry. split; [left|done].
      * by left.
      * right. exists e. split; [by right|done].
    + intros [Hk|(e & [->|He]%elem_of_cons & ->)].
      * left. by right.
      * left. by left.
      * right. by exists e.
Qed.

Lemma page_step_store (ls : layouts) (version : jsstring) (st st' : build_state)
    (entry : list N * list N) :
  page_step ls version st entry = Completed st'
  ∨ page_step ls version st entry = Threw st' →
  edgeStore st' = edgeStore st.
Proof.
  unfold page_step. destruct entry as [f raw].
  destruct (if includes raw delimiter then _ else _) as [head html].
  destruct (ls _); intros [[= <-]|[= <-]]; done.
Qed.

Lemma pages_loop_store (ls : layouts) (version : jsstring) (pageFiles : listing)
    (st st' : build_state) :
  pages_loop ls version st pageFiles = Completed st'
  ∨ pages_loop ls version st pageFiles = Threw st' →
  edgeStore st' = edgeStore st.
Proof.
  revert st. induction pageFiles as [|entry rest IH]; intros st; simpl.
  - by intros [[= <-]|[=]].
  - destruct (page_step ls version st entry) as [st1|st1] eqn:E.
    + intros Hloop. rewrite (IH _ Hloop). eapply page_step_store; eauto.
    + intros [[=]|[= <-]]. eapply page_step_store; eauto.
Qed.

(** C1, as the code has it.  The fingerprint of a build is one digest: of
    the concatenation, in listing order, of the minified payloads of all
    fragment files, or of the text [fx] when that concatenation is empty.
    The keys of the fragment store after the two fragment loops are
    exactly the texts [/__fx/v<fingerprint>/<name>] of the fragment files,
    all with this one fingerprint; and the rest of the script leaves the
    store as it is, however the run ends. *)
Theorem C1_route_keys (fs0 : FS) (fragments : option listing) :
  let files := fragmentFiles fragments in
  let payload := concat (Notions.payloads fs0 files) in
  let version := hash (if payload is [] then js "fx" else payload) in
  build_version fs0 fragments = version
  ∧ (∀ k, k ∈ dom (edgeStore (fragments_done fs0 fragments)) ↔
          ∃ e, e ∈ files
               ∧ k = js "/__fx/v" ++ version ++ js "/" ++ replace e.1 (js ".fx") [])
  ∧ (∀ pages ls st,
       build fs0 fragments pages ls = Completed st
       ∨ build fs0 fragments pages ls = Threw st →
       edgeStore st = edgeStore (fragments_done fs0 fragments)).
Proof.
  intros files payload version.
  assert (build_version fs0 fragments = version) as Hv.
  { unfold build_version, FX_VERSION. fold files.
    by rewrite (payload_fold files fs0 [] []). }
  split_and!; [done| |].
  - intros k. unfold fragments_done. fold files.
    pose proof (payload_fold files fs0 [] []) as Hp.
    unfold build_version, FX_VERSION in Hv. fold files in Hv.
    destruct (foldl payload_step (fs0, [], []) files) as [[fs1 p] out].
    simpl in Hp, Hv. rewrite store_fold_dom. simpl.
    rewrite dom_empty_L, elem_of_empty. unfold FX_VERSION. rewrite Hv.
    unfold routeKey. split.
    + intros [[]|Hk]. done.
    + intros Hk. by right.
  - intros pages ls st. unfold build.
    destruct (pages_loop _ _ _ _) as [st1|st1] eqn:E.
    + intros [[= <-]|[=]]. simpl. eapply pages_loop_store; eauto.
    + intros [[=]|[= <-]]. eapply pages_loop_store; eauto.
Qed.
End RouteKeys.

Section RouteKeysExamples.
Import Header ImageOptimizer BuildVersioned.

(** C1 at a fragment directory with two fragments and a stray file. *)
Lemma C1_route_keys_witness :
  build_version (rt := Demo.runtime) []
    (Some [(js "a.fx", js "<p>x</p>"); (js "b.txt", js "zz"); (js "c.fx", js "<i>c</i>")])
    = js "d751e5ec"
  ∧ js "/__fx/vd751e5ec/c"
    ∈ dom (edgeStore (fragments_done (rt := Demo.runtime) []
         (Some [(js "a.fx", js "<p>x</p>"); (js "b.txt", js "zz");
                (js "c.fx", js "<i>c</i>")]))).
Proof.
  destruct (C1_route_keys (rt := Demo.runtime) []
    (Some [(js "a.fx", js "<p>x</p>"); (js "b.txt", js "zz"); (js "c.fx", js "<i>c</i>")]))
    as (Hv & Hk & _).
  split.
  - rewrite Hv. vm_compute; reflexivity.
  - apply Hk. exists (js "c.fx", js "<i>c</i>"). split.
    + vm_compute. apply list_elem_of_In. right; left; reflexivity.
    + vm_compute; reflexivity.
Defined.

(** C1 as stated fails: with one empty fragment file the concatenation of
    the payloads is empty, and the key carries the digest of the text
    [fx], which is not the digest of the concatenation. *)
Lemma C1_counterexample :
  edgeStore (fragments_done (rt := Demo.runtime) [] (Some [(js "a.fx", [])]))
    = {[ js "/__fx/v06967d8e/a" := [] ]}
  ∧ concat (Notions.payloads (rt := Demo.runtime) [] [(js "a.fx", [])]) = []
  ∧ hash [] = js "da39a3ee"
  ∧ hash (js "fx") = js "06967d8e".
Proof. split_and!; vm_compute; reflexivity. Qed.
End RouteKeysExamples.

(** * C6: an element marked with the sizes 300,600x400 *)

Section ExplicitSizes.
Import Regex ImageOptimizer.
Context {rt : Runtime}.






End ExplicitSizes.

Section ExplicitSizesExamples.
Import Regex ImageOptimizer.


End ExplicitSizesExamples.

(** * C10: [home.fx] and [index.fx] share their outputs *)

Section HomeAndIndex.
Import Header ImageOptimizer.
Context {rt : Runtime}.





End HomeAndIndex.

Section HomeAndIndexExamples.
Import Header ImageOptimizer.

End HomeAndIndexExamples.

(** * The scripts at inputs where they leave the specification *)

Section Divergences.
Import Header ImageOptimizer.

(** C2.  An element that carries the marker and an attribute named
    [data-options] is matched again by a second pass over the output of the
    first: the first pass removes the marker, the second takes the start of
    [data-options] for a marker, adds a second [srcset] and leaves the
    attribute name cut to [ions]. *)
Theorem C2_second_pass_matches_again :
  html_out (processImages (rt := Demo.runtime) Fixtures.one_asset
      (js "<img src='/assets/a.jpg' data-opt data-options='zoom'>"))
    = js "<img src=" ++ quoted (js "/assets/a.jpg") ++ js " srcset="
        ++ quoted (js "/assets/a-480.webp 480w, /assets/a-800.webp 800w, /assets/a-1200.webp 1200w")
        ++ js " data-options='zoom'>"
  ∧ html_out (processImages (rt := Demo.runtime)
      (fs_out (processImages (rt := Demo.runtime) Fixtures.one_asset
                 (js "<img src='/assets/a.jpg' data-opt data-options='zoom'>")))
      (html_out (processImages (rt := Demo.runtime) Fixtures.one_asset
                 (js "<img src='/assets/a.jpg' data-opt data-options='zoom'>"))))
    = js "<img src=" ++ quoted (js "/assets/a.jpg") ++ js " srcset="
        ++ quoted (js "/assets/a-480.webp 480w, /assets/a-800.webp 800w, /assets/a-1200.webp 1200w")
        ++ js " srcset="
        ++ quoted (js "/assets/a-480.webp 480w, /assets/a-800.webp 800w, /assets/a-1200.webp 1200w")
        ++ js " ions='zoom'>".
Proof. split; vm_compute; reflexivity. Qed.

(** C4.  A page file without delimiter: the script of [part_000] warns
    that it uses the file without layout and then renders it through the
    layout [base]; the oldest script stores the fragment and writes no
    page. *)
Theorem C4_layout_applied_without_delimiter :
  includes (js "<div>m</div>") delimiter = false
  ∧ disk (BuildSplit.build (rt := Demo.runtime) []
            [(js "modal.fx", js "<div>m</div>")] None Fixtures.only_base)
    = {[ js "/site/public/modal.html" := js "<html><body><div>m</div></body></html>" ]}
  ∧ console (BuildSplit.build (rt := Demo.runtime) []
            [(js "modal.fx", js "<div>m</div>")] None Fixtures.only_base)
    = [WarnNoSeparator (js "modal.fx"); LogPage (js "/modal"); LogBuildComplete]
  ∧ disk (BuildPages.build (rt := Demo.runtime) []
            [(js "modal.fx", js "<div>m</div>")] Fixtures.only_base) = ∅.
Proof. split_and!; vm_compute; reflexivity. Qed.

(** C7.  A page names the layout [nope], and only [base.js] exists.  The
    versioned script stops at the import: no page is written, not even
    the sibling [b.fx], and no edge script.  The script of [part_000]
    prints the error, skips the page and writes the sibling. *)
Theorem C7_missing_layout_stops_versioned_build :
  (∃ st, BuildVersioned.build (rt := Demo.runtime) [] None
           [(js "a.fx", js "<layout>nope</layout>------<p>a</p>");
            (js "b.fx", js "<title>B</title>------<p>b</p>")] Fixtures.only_base
         = BuildVersioned.Threw st
         ∧ disk st = ∅ ∧ worker st = None)
  ∧ disk (BuildSplit.build (rt := Demo.runtime) []
           [(js "a.fx", js "<layout>nope</layout>------<p>a</p>");
            (js "b.fx", js "<title>B</title>------<p>b</p>")] None Fixtures.only_base)
    = {[ js "/site/public/b.html" := js "<html><body><p>b</p></body></html>" ]}
  ∧ console (BuildSplit.build (rt := Demo.runtime) []
           [(js "a.fx", js "<layout>nope</layout>------<p>a</p>");
            (js "b.fx", js "<title>B</title>------<p>b</p>")] None Fixtures.only_base)
    = [ErrLayoutMissing (js "nope"); LogPage (js "/b"); LogBuildComplete].
Proof.
  split_and!; [|vm_compute; reflexivity..].
  eexists. split_and!; [vm_compute; reflexivity|done|done].
Qed.

(** C8.  The page [a.fx] has an empty body, so the table holds the empty
    text under [/a] when the fragment [a.fx] arrives: the fragment
    replaces the entry and no collision is printed. *)
Theorem C8_collision_with_empty_entry_not_printed :
  edgeStore (foldl (BuildSplit.page_step (rt := Demo.runtime) Fixtures.only_base)
               (start (rt := Demo.runtime) []) [(js "a.fx", js "------")]) !! js "/a"
    = Some []
  ∧ edgeStore (BuildSplit.build (rt := Demo.runtime) []
                 [(js "a.fx", js "------")]
                 (Some [(js "a.fx", js "<p>x</p>")]) Fixtures.only_base) !! js "/a"
    = Some (js "<p>x</p>")
  ∧ console (BuildSplit.build (rt := Demo.runtime) []
               [(js "a.fx", js "------")]
               (Some [(js "a.fx", js "<p>x</p>")]) Fixtures.only_base)
    = [LogPage (js "/a"); LogFragment (js "/a"); LogBuildComplete].
Proof. split_and!; vm_compute; reflexivity. Qed.

(** C9.  An element whose source file is missing and whose [alt] text
    holds two dollar signs: the pass warns, encodes nothing, and writes
    the element back with one dollar sign, since [replace] reads its
    second argument as a replacement pattern. *)
Theorem C9_missing_source_element_changed :
  html_out (processImages (rt := Demo.runtime) Fixtures.one_asset
      (js "<img src='/missing.jpg' data-opt alt='$$5'>"))
    = js "<img src='/missing.jpg' data-opt alt='$5'>"
  ∧ printed (processImages (rt := Demo.runtime) Fixtures.one_asset
      (js "<img src='/missing.jpg' data-opt alt='$$5'>"))
    = [WarnImageNotFound (js "/site/src/missing.jpg")]
  ∧ derived (processImages (rt := Demo.runtime) Fixtures.one_asset
      (js "<img src='/missing.jpg' data-opt alt='$$5'>")) = [].
Proof. split_and!; vm_compute; reflexivity. Qed.
End Divergences.

(** * Further properties of the image optimizer and of the build loops *)

Section OptimizerFacts.
Import Regex ImageOptimizer.

Lemma take_consumed (x rest : jsstring) :
  take (length (x ++ rest) - length rest) (x ++ rest) = x.
Proof.
  rewrite length_app. replace (length x + length rest - length rest)%nat with (length x) by lia.
  by rewrite take_app_length.
Qed.

Lemma imgRegex_Some (s : jsstring) (m : img_match) (rest : jsstring) :
  imgRegex s = Some (m, rest) →
  ∃ (ws : jsstring) (q1 q2 : N) (value : jsstring),
    originalTag m =
      js "<img" ++ ws ++ beforeSrc m ++ js "src=" ++ q1 :: srcPath m
        ++ q2 :: between m ++ js "data-opt" ++ value ++ after m ++ js ">"
    ∧ s = originalTag m ++ rest
    ∧ ws ≠ [] ∧ Forall (fun c => is_space c = true) ws
    ∧ Forall (fun c => not_gt c = true) (beforeSrc m)
    ∧ is_quote q1 = true ∧ srcPath m ≠ []
    ∧ Forall (fun c => not_quote c = true) (srcPath m)
    ∧ is_quote q2 = true
    ∧ Forall (fun c => not_gt c = true) (between m)
    ∧ Forall (fun c => not_gt c = true) (after m)
    ∧ (optValue m = None ∧ value = []
       ∨ ∃ (v : jsstring) (q3 q4 : N),
           optValue m = Some v ∧ value = js "=" ++ q3 :: v ++ [q4]
           ∧ is_quote q3 = true ∧ is_quote q4 = true
           ∧ Forall (fun c => not_quote c = true) v).
Proof.
  unfold imgRegex. intros Hm.
  apply lit_Some in Hm as (s1 & Es1 & Hm).
  apply plus_greedy_Some in Hm as (ws & s2 & -> & Hws & Hsp & Hm).
  apply star_lazy_Some in Hm as (g1 & s3 & -> & Hg1 & Hm).
  apply lit_Some in Hm as (s4 & -> & Hm).
  apply one_Some in Hm as (q1 & s5 & -> & Hq1 & Hm).
  apply plus_greedy_Some in Hm as (g2 & s6 & -> & Hg2ne & Hg2 & Hm).
  apply one_Some in Hm as (q2 & s7 & -> & Hq2 & Hm).
  apply star_lazy_Some in Hm as (g3 & s8 & -> & Hg3 & Hm).
  apply lit_Some in Hm as (s9 & -> & Hm).
  cbv zeta in Hm.
  match type of Hm with
  | match ?grp with Some r => Some r | None => ?tl end = _ =>
      destruct grp as [r|] eqn:Egrp
  end.
  - injection Hm as ->.
    apply lit_Some in Egrp as (s10 & -> & Egrp).
    apply one_Some in Egrp as (q3 & s11 & -> & Hq3 & Egrp).
    apply star_greedy_Some in Egrp as (v & s12 & -> & Hv & Egrp).
    apply one_Some in Egrp as (q4 & s13 & -> & Hq4 & Egrp).
    apply star_lazy_Some in Egrp as (g5 & s14 & -> & Hg5 & Egrp).
    apply lit_Some in Egrp as (s15 & -> & Egrp).
    injection Egrp as <- <-. cbn [originalTag beforeSrc srcPath between optValue after].
    exists ws, q1, q2, (js "=" ++ q3 :: v ++ [q4]).
    assert (s = (js "<img" ++ ws ++ g1 ++ js "src=" ++ q1 :: g2 ++ q2 :: g3
                  ++ js "data-opt" ++ (js "=" ++ q3 :: v ++ [q4]) ++ g5 ++ js ">") ++ s15) as Es.
    { rewrite Es1. repeat (rewrite <- ?app_assoc; cbn [app]; f_equal). }
    clear Es1. subst s. rewrite take_consumed.
    split_and!; try done. right. by exists v, q3, q4.
  - apply star_lazy_Some in Hm as (g5 & s14 & -> & Hg5 & Hm).
    apply lit_Some in Hm as (s15 & -> & Hm).
    injection Hm as <- <-. cbn [originalTag beforeSrc srcPath between optValue after].
    exists ws, q1, q2, [].
    assert (s = (js "<img" ++ ws ++ g1 ++ js "src=" ++ q1 :: g2 ++ q2 :: g3
                  ++ js "data-opt" ++ [] ++ g5 ++ js ">") ++ s15) as Es.
    { rewrite Es1. repeat (rewrite <- ?app_assoc; cbn [app]; f_equal). }
    clear Es1. subst s. rewrite take_consumed.
    split_and!; try done. by left.
Qed.

(** A scan finds nothing where the pattern matches at no position. *)
Lemma scan_nothing {M : Type} (at_ : jsstring → option (M * jsstring))
    (s : jsstring) (skip : nat) :
  (∀ pre post, s = pre ++ post → at_ post = None) → scan at_ s skip = [].
Proof.
  revert skip. induction s as [|c s IH]; intros skip Hno; [done|].
  assert (∀ n, scan at_ s n = []) as Hrec.
  { intros n. apply IH. intros pre post ->. by apply (Hno (c :: pre)). }
  simpl. destruct skip; [|done]. by rewrite (Hno [] (c :: s) eq_refl).
Qed.

Lemma matchAll_unmarked (html : jsstring) :
  Notions.absent (js "data-opt") html → matchAll imgRegex html = [].
Proof.
  intros Habs. apply scan_nothing. intros pre post ->.
  destruct (imgRegex post) as [[m rest]|] eqn:E; [|done]. exfalso.
  apply imgRegex_Some in E as (ws & q1 & q2 & value & Htag & -> & _).
  rewrite Htag in Habs.
  apply (Habs (pre ++ js "<img" ++ ws ++ beforeSrc m ++ js "src=" ++ q1 :: srcPath m
                 ++ q2 :: between m)
              (value ++ after m ++ js ">" ++ rest)).
  repeat (rewrite <- ?app_assoc; cbn [app]; f_equal).
Qed.

Lemma getSubstitution_plain (matched before after tpl : jsstring) :
  dollar ∉ tpl → getSubstitution matched before after tpl = tpl.
Proof.
  induction tpl as [|c t IH]; [done|]. intros [Hc Ht]%not_elem_of_cons.
  cbn [getSubstitution]. destruct t as [|d t']; [done|].
  destruct (c =? dollar) eqn:E.
  - apply N.eqb_eq in E. by subst c.
  - f_equal. by apply IH.
Qed.

Lemma replace_same (html tag : jsstring) :
  dollar ∉ tag → replace html tag tag = html.
Proof.
  intros Hd. unfold replace.
  destruct (break_on tag html) as [[a b]|] eqn:E; [|done].
  apply break_on_first in E as [-> _]. by rewrite getSubstitution_plain.
Qed.

Lemma match_in_markup (html : jsstring) (m : img_match) (c : N) :
  m ∈ matchAll imgRegex html → c ∈ originalTag m → c ∈ html.
Proof.
  intros (pre & post & rest & -> & Hat)%scan_elem Hc.
  apply imgRegex_Some in Hat as (_ & _ & _ & _ & _ & -> & _).
  rewrite !elem_of_app. auto.
Qed.

Context {rt : Runtime}.

(** X1.  Markup in which the text [data-opt] stands nowhere is left as it
    is: the pass returns it unchanged, writes nothing and prints nothing. *)
Theorem X1_unmarked_markup_untouched (fs : FS) (html : jsstring) :
  Notions.absent (js "data-opt") html →
  processImages fs html
    = {| html_out := html; fs_out := fs; derived := []; printed := [] |}.
Proof.
  intros Habs. unfold processImages. by rewrite matchAll_unmarked.
Qed.

Lemma missing_fold_effects (fs : FS) (matches : list img_match)
    (acc : FS * list variant) :
  (∀ m, m ∈ matches → existsSync fs (localFilePath m) = false) →
  foldl (fun acc m =>
           if existsSync fs (localFilePath m)
           then foldl (derive m) acc (sizesToProcess m) else acc)
        acc matches = acc.
Proof.
  revert acc. induction matches as [|m ms IH]; intros acc Hmiss; [done|].
  cbn [foldl]. rewrite (Hmiss m); [|by left].
  apply IH. intros m' Hm'. apply Hmiss. by right.
Qed.

Lemma missing_fold_html (fs : FS) (matches : list img_match) (html : jsstring) :
  (∀ m, m ∈ matches → existsSync fs (localFilePath m) = false) →
  (∀ m, m ∈ matches → dollar ∉ originalTag m) →
  foldl (fun h '(o, n) => replace h o n) html
    ((fun m => (originalTag m,
                if existsSync fs (localFilePath m) then newTag m else originalTag m))
       <$> matches) = html.
Proof.
  revert html. induction matches as [|m ms IH]; intros html Hmiss Hd; [done|].
  cbn [fmap list_fmap foldl]. rewrite (Hmiss m); [|by left].
  rewrite replace_same; [|apply Hd; by left].
  apply IH; intros m' Hm'; [apply Hmiss|apply Hd]; by right.
Qed.

(** X2.  When the source file of every marked element is missing and the
    markup holds no dollar sign, the pass returns the markup unchanged,
    prints one warning for each element, and writes nothing. *)
Theorem X2_missing_sources_leave_markup (fs : FS) (html : jsstring) :
  (∀ m, m ∈ matchAll imgRegex html → existsSync fs (localFilePath m) = false) →
  dollar ∉ html →
  processImages fs html
    = {| html_out := html; fs_out := fs; derived := [];
         printed := (fun m => WarnImageNotFound (localFilePath m))
                      <$> matchAll imgRegex html |}.
Proof.
  intros Hmiss Hd. unfold processImages.
  rewrite missing_fold_effects; [|done].
  rewrite missing_fold_html; [|done|].
  - f_equal. apply list_fmap_ext. intros i m Hm.
    rewrite Hmiss; [done|]. by eapply list_elem_of_lookup_2.
  - intros m Hm Hin. apply Hd. by eapply match_in_markup.
Qed.

(** X3.  A marker without value, or with the empty value, asks for the
    default widths 480, 800 and 1200, each with the aspect ratio kept, and
    the [srcset] holds their three descriptors. *)
Theorem X3_default_sizes (m : img_match) :
  optValue m = None ∨ optValue m = Some [] →
  sizesToProcess m =
    [ {| width := Num 480; height := None |};
      {| width := Num 800; height := None |};
      {| width := Num 1200; height := None |} ]
  ∧ resize_of <$> sizesToProcess m =
      [ResizeWidth (Num 480); ResizeWidth (Num 800); ResizeWidth (Num 1200)]
  ∧ srcSetString m =
      Notions.expected_descriptor m (js "480") (js "480") ++ js ", "
        ++ Notions.expected_descriptor m (js "800") (js "800") ++ js ", "
        ++ Notions.expected_descriptor m (js "1200") (js "1200").
Proof.
  intros Hopt.
  assert (sizesToProcess m =
    [ {| width := Num 480; height := None |};
      {| width := Num 800; height := None |};
      {| width := Num 1200; height := None |} ]) as Hsizes.
  { unfold sizesToProcess. by destruct Hopt as [-> | ->]. }
  split_and!; [done|by rewrite Hsizes|].
  unfold srcSetString. rewrite Hsizes. cbn [fmap list_fmap join].
  unfold descriptor, outFileName, Notions.expected_descriptor.
  rewrite <- !app_assoc. reflexivity.
Qed.
End OptimizerFacts.

Section OptimizerExamples.
Import Regex ImageOptimizer.

(** X1 at markup with an unmarked image. *)
Lemma X1_unmarked_markup_untouched_witness :
  html_out (processImages (rt := Demo.runtime) Fixtures.one_asset
              (js "<p>x</p><img src='/assets/a.jpg' alt='a'>"))
    = js "<p>x</p><img src='/assets/a.jpg' alt='a'>".
Proof.
  rewrite (X1_unmarked_markup_untouched (rt := Demo.runtime)); [done|].
  apply includes_false. vm_compute; reflexivity.
Defined.

(** X2 at markup with one marked image whose file is missing. *)
Lemma X2_missing_sources_leave_markup_witness :
  processImages (rt := Demo.runtime) Fixtures.one_asset
      (js "<img src='/missing.jpg' data-opt alt='m'>")
    = @Build_processed Demo.runtime
        (js "<img src='/missing.jpg' data-opt alt='m'>") Fixtures.one_asset []
        [WarnImageNotFound (js "/site/src/missing.jpg")].
Proof.
  rewrite (X2_missing_sources_leave_markup (rt := Demo.runtime)).
  - vm_compute; reflexivity.
  - intros m Hm. vm_compute in Hm. apply list_elem_of_In in Hm as [<-|[]].
    vm_compute; reflexivity.
  - intros Hin. vm_compute in Hin. apply list_elem_of_In in Hin.
    repeat (destruct Hin as [Hin|Hin]; [discriminate|]). done.
Defined.

(** X3 at the element [<img src='/assets/a.jpg' data-opt>]. *)
Lemma X3_default_sizes_witness :
  srcSetString (rt := Demo.runtime)
    {| originalTag := js "<img src='/assets/a.jpg' data-opt>"; beforeSrc := [];
       srcPath := js "/assets/a.jpg"; between := js " "; optValue := None;
       after := [] |}
  = js "/assets/a-480.webp 480w, /assets/a-800.webp 800w, /assets/a-1200.webp 1200w".
Proof.
  destruct (X3_default_sizes (rt := Demo.runtime)
    {| originalTag := js "<img src='/assets/a.jpg' data-opt>"; beforeSrc := [];
       srcPath := js "/assets/a.jpg"; between := js " "; optValue := None;
       after := [] |}) as (_ & _ & Hsrc); [by left|].
  rewrite Hsrc. vm_compute; reflexivity.
Defined.
End OptimizerExamples.

(** * Further properties of the script with separate directories *)

Section SplitFacts.
Import Header ImageOptimizer BuildSplit.
Context {rt : Runtime}.

Lemma slash_key_not_proto (slug : jsstring) : js "/" ++ slug ≠ js "__proto__".
Proof.
  intros Heq. apply (f_equal (take 1)) in Heq. vm_compute in Heq. discriminate.
Qed.

Lemma edgeKey_not_proto (slug : jsstring) : edgeKey slug ≠ js "__proto__".
Proof.
  unfold edgeKey. destruct (is_home slug); [|apply slash_key_not_proto].
  vm_compute; discriminate.
Qed.

(** X4.  A fragment whose key holds a non-empty entry already: the loop
    prints the collision warning, stores the fragment under the key in
    place of the old entry, and writes no page. *)
Theorem X4_collision_warned_later_wins (st : build_state)
    (file text old : jsstring) (c : N) :
  endsWith file (js ".fx") = true →
  edgeStore st !! (js "/" ++ replace file (js ".fx") []) = Some (c :: old) →
  WarnCollision (replace file (js ".fx") [])
    ∈ console (fragment_step st (file, text))
  ∧ edgeStore (fragment_step st (file, text)) !! (js "/" ++ replace file (js ".fx") [])
      = Some (minify (html_out (processImages (fs st) (trim text))))
  ∧ disk (fragment_step st (file, text)) = disk st.
Proof.
  intros Hfx Hold. unfold fragment_step, truthy_entry. rewrite Hfx, Hold. simpl.
  split_and!; [|by rewrite obj_set_lookup, decide_True
                    by auto using slash_key_not_proto|done].
  rewrite elem_of_app, elem_of_cons. auto.
Qed.

(** X5.  A page whose layout does not exist: the loop prints the error,
    writes no page for it, keeps its content in the table, and goes on
    with the files that follow. *)
Theorem X5_missing_layout_skips_page (ls : layouts) (st : build_state)
    (file rawFile : jsstring) :
  endsWith file (js ".fx") = true →
  ls (layout_name
        (obj_set (js "body")
           (html_out (processImages (fs st) (split_page file rawFile).1.2))
           (parseMetadata (split_page file rawFile).1.1))) = None →
  disk (page_step ls st (file, rawFile)) = disk st
  ∧ ErrLayoutMissing
      (layout_name
        (obj_set (js "body")
           (html_out (processImages (fs st) (split_page file rawFile).1.2))
           (parseMetadata (split_page file rawFile).1.1)))
      ∈ console (page_step ls st (file, rawFile))
  ∧ edgeStore (page_step ls st (file, rawFile)) !! edgeKey (replace file (js ".fx") [])
      = Some (minify (html_out (processImages (fs st) (split_page file rawFile).1.2)))
  ∧ ∀ rest,
      foldl (page_step ls) st ((file, rawFile) :: rest)
        = foldl (page_step ls) (page_step ls st (file, rawFile)) rest.
Proof.
  intros Hfx Hls. split_and!; [| | |done].
  all: unfold page_step; rewrite Hfx; cbn [negb];
    destruct (split_page file rawFile) as [[headerRaw content] warned];
    cbn [fst snd] in Hls |- *; cbv zeta; rewrite Hls; simpl.
  - done.
  - rewrite !elem_of_app, elem_of_cons. auto.
  - rewrite obj_set_lookup, decide_True; auto using edgeKey_not_proto.
Qed.
End SplitFacts.

Section SplitExamples.
Import Header ImageOptimizer BuildSplit.

(** X4 at a fragment [a.fx] after a page [a.fx] with a body. *)
Lemma X4_collision_warned_later_wins_witness :
  WarnCollision (js "a")
    ∈ console (fragment_step (rt := Demo.runtime)
        (foldl (page_step Fixtures.only_base) (start (rt := Demo.runtime) [])
           [(js "a.fx", js "------<p>page</p>")])
        (js "a.fx", js "<p>x</p>")).
Proof.
  apply (X4_collision_warned_later_wins (rt := Demo.runtime)
           (foldl (page_step Fixtures.only_base) (start (rt := Demo.runtime) [])
              [(js "a.fx", js "------<p>page</p>")])
           (js "a.fx") (js "<p>x</p>") (js "p>page</p>") 60);
    vm_compute; reflexivity.
Defined.

(** X5 at a page that names the layout [nope]. *)
Lemma X5_missing_layout_skips_page_witness :
  disk (page_step (rt := Demo.runtime) Fixtures.only_base (start (rt := Demo.runtime) [])
          (js "a.fx", js "<layout>nope</layout>------<p>a</p>")) = ∅.
Proof.
  destruct (X5_missing_layout_skips_page (rt := Demo.runtime) Fixtures.only_base
              (start (rt := Demo.runtime) []) (js "a.fx")
              (js "<layout>nope</layout>------<p>a</p>")) as (Hdisk & _);
    [vm_compute; reflexivity..|].
  by rewrite Hdisk.
Defined.
End SplitExamples.

(** * The image optimizer: which elements are selected *)

Section MatcherCompleteness.
Import Regex.
Context {R : Type}.

Lemma lit_app (w s : jsstring) (k : jsstring → option R) :
  lit w (w ++ s) k = k s.
Proof. unfold lit. by rewrite strip_prefix_app. Qed.

(** A lazy star finds a match when some split of the input lets the rest
    of the pattern match. *)
Lemma star_lazy_found (p : N → bool) (pre post acc : jsstring)
    (k : jsstring → jsstring → option R) :
  Forall (fun c => p c = true) pre → is_Some (k (acc ++ pre) post) →
  is_Some (star_lazy p acc (pre ++ post) k).
Proof.
  revert acc. induction pre as [|c pre IH]; intros acc Hpre Hk.
  - rewrite app_nil_r in Hk. destruct Hk as [r Hk]. exists r.
    destruct post; simpl; by rewrite Hk.
  - apply Forall_cons in Hpre as [Hc Hpre]. cbn [app star_lazy].
    destruct (k acc (c :: pre ++ post)); [done|]. rewrite Hc.
    apply IH; [done|]. by rewrite <- app_assoc.
Qed.

Lemma star_greedy_found (p : N → bool) (pre post acc : jsstring)
    (k : jsstring → jsstring → option R) :
  Forall (fun c => p c = true) pre → is_Some (k (acc ++ pre) post) →
  is_Some (star_greedy p acc (pre ++ post) k).
Proof.
  revert acc. induction pre as [|c pre IH]; intros acc Hpre Hk.
  - rewrite app_nil_r in Hk. destruct post as [|d post]; [done|].
    cbn [app star_greedy]. destruct (p d); [|done].
    by destruct (star_greedy p (acc ++ [d]) post k).
  - apply Forall_cons in Hpre as [Hc Hpre]. cbn [app star_greedy]. rewrite Hc.
    destruct (IH (acc ++ [c]) Hpre) as [r ->]; [by rewrite <- app_assoc|done].
Qed.

Lemma plus_greedy_found (p : N → bool) (pre post : jsstring)
    (k : jsstring → jsstring → option R) :
  pre ≠ [] → Forall (fun c => p c = true) pre → is_Some (k pre post) →
  is_Some (plus_greedy p (pre ++ post) k).
Proof.
  intros Hne Hpre Hk. destruct pre as [|c pre]; [done|].
  apply Forall_cons in Hpre as [Hc Hpre]. unfold plus_greedy. cbn [app one].
  rewrite Hc. by apply (star_greedy_found p pre post [c]).
Qed.
End MatcherCompleteness.

Section Selection.
Import Regex ImageOptimizer.

(** [imgRegex] matches at the head of every text that starts with a marked
    element. *)
Lemma imgRegex_found (tag rest : jsstring) (m : img_match) :
  Terms.marked_element tag m → is_Some (imgRegex (tag ++ rest)).
Proof.
  intros (ws & q1 & q2 & value & -> & Hne & Hws & Hq1 & Hq2 & Hsrc & Hg2 & Hgt & Hval).
  apply Forall_app in Hgt as [Hg1 Hgt]. apply Forall_app in Hgt as [Hg3 Hg5].
  assert (Terms.element_text ws (beforeSrc m) q1 (srcPath m) q2 (between m) value
            (after m) ++ rest
          = js "<img" ++ ws ++ beforeSrc m ++ js "src=" ++ q1 :: srcPath m ++ q2
              :: between m ++ js "data-opt" ++ value ++ after m ++ js ">" ++ rest) as ->.
  { unfold Terms.element_text. repeat (rewrite <- ?app_assoc; cbn [app]; f_equal). }
  unfold imgRegex. rewrite lit_app.
  apply plus_greedy_found; [done..|].
  apply (star_lazy_found not_gt (beforeSrc m) _ []); [done|].
  rewrite lit_app. cbn [one]. rewrite Hq1.
  apply plus_greedy_found; [done..|]. cbn [one]. rewrite Hq2.
  apply (star_lazy_found not_gt (between m) _ []); [done|].
  rewrite lit_app. cbv zeta.
  match goal with
  | |- is_Some (match ?grp with Some r => Some r | None => _ end) =>
      destruct grp as [r|] eqn:Egrp; [done|]
  end.
  destruct Hval as [[_ ->]|(v & q3 & q4 & _ & -> & Hq3 & Hq4 & Hv)].
  - rewrite app_nil_l. apply (star_lazy_found not_gt (after m) _ []); [done|].
    by rewrite lit_app.
  - exfalso.
    assert ((js "=" ++ q3 :: v ++ [q4]) ++ after m ++ js ">" ++ rest
            = js "=" ++ q3 :: v ++ q4 :: after m ++ js ">" ++ rest) as Hre.
    { repeat (rewrite <- ?app_assoc; cbn [app]; f_equal). }
    rewrite Hre, lit_app in Egrp. cbn [one] in Egrp. rewrite Hq3 in Egrp.
    assert (is_Some (@None (img_match * jsstring))) as [? ?]; [|done].
    rewrite <- Egrp.
    apply (star_greedy_found not_quote v _ []); [done|]. cbn [one].
    rewrite Hq4. apply (star_lazy_found not_gt (after m) _ []); [done|].
    by rewrite lit_app.
Qed.

(** A scan is not empty when the pattern matches somewhere. *)
Lemma scan_found {M : Type} (at_ : jsstring → option (M * jsstring))
    (pre s : jsstring) :
  is_Some (at_ s) → s ≠ [] → scan at_ (pre ++ s) 0 ≠ [].
Proof.
  intros [[m rest] Hat] Hne. induction pre as [|c pre IH].
  - destruct s as [|c s]; [done|]. cbn [app scan]. by rewrite Hat.
  - cbn [app scan]. by destruct (at_ (c :: pre ++ s)) as [[m' rest']|].
Qed.

Lemma imgRegex_not_lt (c : N) (s : jsstring) :
  c ≠ Notions.lt_sign → imgRegex (c :: s) = None.
Proof.
  intros Hc. unfold imgRegex, lit. change (js "<img") with (Notions.lt_sign :: js "img").
  rewrite strip_prefix_mismatch; [done|congruence].
Qed.

Lemma scan_img_gap (gap s : jsstring) :
  Notions.lt_sign ∉ gap → scan imgRegex (gap ++ s) 0 = scan imgRegex s 0.
Proof.
  induction gap as [|c gap IH]; [done|]. intros [Hc Hgap]%not_elem_of_cons.
  cbn [app scan]. rewrite imgRegex_not_lt by done. by apply IH.
Qed.

Lemma marked_element_cons (tag : jsstring) (m : img_match) :
  Terms.marked_element tag m → ∃ t, tag = Notions.lt_sign :: t.
Proof.
  intros (ws & q1 & q2 & value & -> & _). unfold Terms.element_text.
  change (js "<img") with (Notions.lt_sign :: js "img"). by eexists.
Qed.

(** What matches at the head of a text is a marked element. *)
Lemma imgRegex_marked (s : jsstring) (m : img_match) (rest : jsstring) :
  imgRegex s = Some (m, rest) →
  s = originalTag m ++ rest ∧ Terms.marked_element (originalTag m) m.
Proof.
  intros Hat. apply imgRegex_Some in Hat
    as (ws & q1 & q2 & value & Htag & -> & Hws & Hsp & Hg1 & Hq1 & Hne & Hg2 & Hq2
        & Hg3 & Hg5 & Hval).
  split; [done|]. exists ws, q1, q2, value.
  split_and!; try done. by rewrite !Forall_app.
Qed.

(** X6.  Every element the optimizer selects is a piece of the markup that
    reads as a marked image element: the word, white space, attributes, a
    quoted source that is not empty, attributes, the marker with or without
    a quoted value, attributes and the closing sign, the marker standing
    after the source. *)
Theorem X6_selected_elements_are_marked (html : jsstring) (m : img_match) :
  m ∈ matchAll imgRegex html →
  Terms.marked_element (originalTag m) m
  ∧ ∃ pre post, html = pre ++ originalTag m ++ post.
Proof.
  intros (pre & post & rest & -> & Hat)%scan_elem.
  apply imgRegex_marked in Hat as [-> Hm]. split; [done|]. by exists pre, rest.
Qed.

(** X7.  The optimizer selects an element exactly when the markup holds a
    marked image element somewhere; and when no opening sign stands before
    such an element, the first selected element starts where it starts. *)
Theorem X7_marked_elements_are_found (html : jsstring) :
  (matchAll imgRegex html ≠ [] ↔
     ∃ pre tag m post, html = pre ++ tag ++ post ∧ Terms.marked_element tag m)
  ∧ (∀ pre tag m post,
       html = pre ++ tag ++ post → Terms.marked_element tag m →
       Notions.lt_sign ∉ pre →
       ∃ m' ms rest,
         matchAll imgRegex html = m' :: ms ∧ tag ++ post = originalTag m' ++ rest
         ∧ Terms.marked_element (originalTag m') m').
Proof.
  split.
  - split.
    + intros Hne. destruct (matchAll imgRegex html) as [|m ms] eqn:E; [done|].
      assert (m ∈ matchAll imgRegex html) as Hin by (rewrite E; by left).
      apply scan_elem in Hin as (pre & post & rest & -> & Hat).
      apply imgRegex_marked in Hat as [-> Hm].
      by exists pre, (originalTag m), m, rest.
    + intros (pre & tag & m & post & -> & Hm). unfold matchAll.
      apply scan_found; [by eapply imgRegex_found|].
      apply marked_element_cons in Hm as [t ->]. done.
  - intros pre tag m post -> Hm Hpre. unfold matchAll.
    rewrite scan_img_gap by done.
    destruct (imgRegex_found tag post m Hm) as [[m' rest] Hat].
    destruct (imgRegex_marked _ _ _ Hat) as [Hs Hm'].
    destruct (marked_element_cons tag m Hm) as [t ->].
    cbn [app scan] in *. rewrite Hat. by eexists m', _, rest.
Qed.
End Selection.

(** * The image optimizer: renditions and the rewritten element *)

Section Renditions.
Import Regex ImageOptimizer.
Context {rt : Runtime}.


Lemma derive_fold_inv (P : variant → Prop) (m : img_match) (sizes : list size)
    (acc : FS * list variant) :
  (∀ sz, sz ∈ sizes → P (variant_of m sz)) →
  Forall P acc.2 → Forall P (foldl (derive m) acc sizes).2.
Proof.
  revert acc. induction sizes as [|sz sizes IH]; intros [fs vs] Hsz Hacc; [done|].
  cbn [foldl]. apply IH; [intros sz' Hin; apply Hsz; by right|].
  unfold derive. destruct (existsSync _ _); simpl in *; [done|].
  apply Forall_app. split; [done|]. constructor; [|constructor].
  apply Hsz. by left.
Qed.

(** X9.  Every rendition a pass encodes belongs to a selected element whose
    source file exists and to one of the sizes asked for it: it is read
    from that source, written as WebP of quality 80, and its target is the
    file the naming convention gives that size under [public]. *)
Theorem X9_renditions_come_from_existing_sources (fs : FS) (html : jsstring)
    (v : variant) :
  v ∈ derived (processImages fs html) →
  ∃ m sz, m ∈ matchAll imgRegex html
          ∧ existsSync fs (localFilePath m) = true
          ∧ sz ∈ sizesToProcess m
          ∧ v = variant_of m sz
          ∧ v_source v = path_join [cwd; js "src"; cleanPath m]
          ∧ v_quality v = 80%Z
          ∧ v_target v
              = path_join [cwd; js "public"; fsDirName m;
                           fileName m ++ js "-" ++ suffix sz ++ js ".webp"].
Proof.
  unfold processImages.
  set (P := fun v : variant => ∃ m sz, m ∈ matchAll imgRegex html
          ∧ existsSync fs (localFilePath m) = true
          ∧ sz ∈ sizesToProcess m ∧ v = variant_of m sz
          ∧ v_source v = path_join [cwd; js "src"; cleanPath m]
          ∧ v_quality v = 80%Z
          ∧ v_target v
              = path_join [cwd; js "public"; fsDirName m;
                           fileName m ++ js "-" ++ suffix sz ++ js ".webp"]).
  assert (∀ (ms : list img_match) (acc : FS * list variant),
    (∀ m, m ∈ ms → m ∈ matchAll imgRegex html) → Forall P acc.2 →
    Forall P (foldl (fun acc m =>
      if existsSync fs (localFilePath m) then foldl (derive m) acc (sizesToProcess m)
      else acc) acc ms).2) as Hfold.
  { induction ms as [|m ms IH]; intros acc Hms Hacc; [done|].
    cbn [foldl]. apply IH; [intros m' Hm'; apply Hms; by right|].
    destruct (existsSync fs (localFilePath m)) eqn:E; [|done].
    apply derive_fold_inv; [|done]. intros sz Hsz. exists m, sz.
    split_and!; [apply Hms; by left|done..]. }
  specialize (Hfold (matchAll imgRegex html) (fs, []) (fun m H => H) (Forall_nil_2 _)).
  destruct (foldl _ (fs, []) _) as [fs' vs]. simpl in *.
  intros Hv. rewrite Forall_forall in Hfold. by apply Hfold.
Qed.
End Renditions.

Section RewrittenTag.
Import Regex ImageOptimizer.







Context {rt : Runtime}.

End RewrittenTag.

(** * Trimmed texts *)

Section TrimFacts.
Import Header.

Lemma trimStart_head (s t : jsstring) (c : N) :
  trimStart s = c :: t → is_space c = false.
Proof.
  induction s as [|d s IH]; [done|]. simpl.
  destruct (is_space d) eqn:E; [done|]. by intros [= <- _].
Qed.

Lemma trimStart_suffix (s : jsstring) : ∃ ws, s = ws ++ trimStart s.
Proof.
  induction s as [|d s [ws IH]]; [by exists []|]. simpl.
  destruct (is_space d); [|by exists []].
  exists (d :: ws). simpl. by f_equal.
Qed.

Lemma trimEnd_prefix (s : jsstring) : ∃ ws, s = trimEnd s ++ ws.
Proof.
  unfold trimEnd. destruct (trimStart_suffix (rev s)) as [ws Hws].
  exists (rev ws). rewrite <- rev_app_distr, <- Hws. by rewrite rev_involutive.
Qed.

Lemma trimEnd_last (s t : jsstring) (c : N) :
  trimEnd s = t ++ [c] → is_space c = false.
Proof.
  unfold trimEnd. intros H. apply (f_equal (@rev N)) in H.
  rewrite rev_involutive, rev_app_distr in H. simpl in H.
  by eapply trimStart_head.
Qed.

Lemma trim_trimmed (s : jsstring) : Terms.trimmed (trim s).
Proof.
  split.
  - intros c t Ht. unfold trim in Ht.
    destruct (trimEnd_prefix (trimStart s)) as [ws Hws].
    rewrite Ht in Hws. by eapply trimStart_head.
  - intros t c Ht. by eapply trimEnd_last.
Qed.

Lemma trim_fixed (s : jsstring) : Terms.trimmed s → trim s = s.
Proof.
  intros [Hhead Hlast]. unfold trim.
  assert (trimStart s = s) as ->.
  { destruct s as [|c t]; [done|]. simpl. by rewrite (Hhead c t). }
  unfold trimEnd. destruct (rev s) as [|c t] eqn:E.
  - apply (f_equal (@rev N)) in E. by rewrite rev_involutive in E.
  - assert (s = rev t ++ [c]) as Hs.
    { apply (f_equal (@rev N)) in E. by rewrite rev_involutive in E. }
    simpl. rewrite (Hlast _ _ Hs). by rewrite Hs.
Qed.

Lemma no_space_trimmed (s : jsstring) :
  Forall (fun c => is_space c = false) s → Terms.trimmed s.
Proof.
  rewrite Forall_forall. intros Hall. split.
  - intros c t ->. apply Hall. by left.
  - intros t c ->. apply Hall. rewrite elem_of_app, list_elem_of_singleton. auto.
Qed.

Lemma trimStart_elem (c : N) (s : jsstring) : c ∈ trimStart s → c ∈ s.
Proof.
  induction s as [|d s IH]; [done|]. simpl. destruct (is_space d); [|done].
  intros ?. right. auto.
Qed.

Lemma trim_elem (c : N) (s : jsstring) : c ∈ trim s → c ∈ s.
Proof.
  unfold trim, trimEnd. rewrite list_elem_of_In, <- in_rev, <- list_elem_of_In.
  intros H%trimStart_elem.
  rewrite list_elem_of_In, <- in_rev, <- list_elem_of_In in H.
  by apply trimStart_elem.
Qed.

(** X11.  Every value of the metadata of a header, and the body of a page,
    has no white space at either end; and trimming leaves such a text as it
    is. *)
Theorem X11_header_values_and_body_trimmed (rawHeader rawFile : jsstring) :
  (∀ k v, parseMetadata rawHeader !! k = Some v → Terms.trimmed v)
  ∧ Terms.trimmed (page_body rawFile)
  ∧ (∀ s, Terms.trimmed s → trim s = s).
Proof.
  split_and!.
  - intros k v (_ & _ & _ & pre & inner & post & _ & ->)%parseMetadata_sound.
    apply trim_trimmed.
  - apply trim_trimmed.
  - apply trim_fixed.
Qed.
End TrimFacts.

(** * Paths and size tokens of the image optimizer *)

Section PathsAndSizes.
Import Regex ImageOptimizer.

Lemma split_fuel_cons (fuel : nat) (sep s : jsstring) :
  ∃ p ps, split_fuel fuel sep s = p :: ps.
Proof.
  destruct fuel; simpl; destruct (break_on sep s) as [[a b]|]; eauto.
Qed.

Lemma join_cons (sep p : jsstring) (ps : list jsstring) :
  ps ≠ [] → join sep (p :: ps) = p ++ sep ++ join sep ps.
Proof. by destruct ps. Qed.

Lemma slashed_absent (c : N) (s : jsstring) : c ∉ s → Terms.slashed c s = s.
Proof.
  unfold Terms.slashed. induction s as [|d s IH]; [done|].
  intros [Hd Hs]%not_elem_of_cons. cbn [fmap list_fmap].
  destruct (d =? c) eqn:E; [apply N.eqb_eq in E; congruence|].
  f_equal. by apply IH.
Qed.

(** The first occurrence of a separator of one code unit. *)
Lemma break_on_single (c : N) (s : jsstring) :
  match break_on [c] s with
  | Some (a, b) => s = a ++ c :: b ∧ c ∉ a
  | None => c ∉ s
  end.
Proof.
  induction s as [|d s IH]; [by intros ?%elem_of_nil|].
  cbn [break_on strip_prefix]. destruct (c =? d) eqn:E.
  - apply N.eqb_eq in E as ->. split; [done|]. by intros ?%elem_of_nil.
  - apply N.eqb_neq in E. destruct (break_on [c] s) as [[a b]|].
    + destruct IH as [-> Ha]. split; [done|].
      intros [?|?]%elem_of_cons; congruence.
    + intros [?|?]%elem_of_cons; congruence.
Qed.

Lemma join_split_single (c : N) (fuel : nat) (s : jsstring) :
  (length s ≤ fuel)%nat →
  join (js "/") (split_fuel fuel [c] s) = Terms.slashed c s.
Proof.
  revert s. induction fuel as [|fuel IH]; intros s Hlen.
  - destruct s; [|simpl in Hlen; lia]. done.
  - cbn [split_fuel]. pose proof (break_on_single c s) as Hb.
    destruct (break_on [c] s) as [[a b]|].
    + destruct Hb as [-> Ha].
      destruct (split_fuel_cons fuel [c] b) as (p & ps & Hps).
      rewrite join_cons by (rewrite Hps; done).
      rewrite IH by (rewrite length_app in Hlen; simpl in Hlen; lia).
      unfold Terms.slashed. rewrite fmap_app. cbn [fmap list_fmap].
      rewrite N.eqb_refl. fold (Terms.slashed c a). rewrite slashed_absent by done.
      reflexivity.
    + by rewrite slashed_absent.
Qed.

Lemma split_absent (c : N) (s : jsstring) : c ∉ s → split s [c] = [s].
Proof.
  intros Hc. unfold split. pose proof (break_on_single c s) as Hb.
  destruct (length s); simpl; destruct (break_on [c] s) as [[a b]|]; try done;
    destruct Hb as [-> _]; exfalso; apply Hc; rewrite elem_of_app, elem_of_cons; auto.
Qed.

Lemma split_once (c : N) (a b : jsstring) :
  c ∉ a → c ∉ b → split (a ++ c :: b) [c] = [a; b].
Proof.
  intros Ha Hb. unfold split.
  assert (break_on [c] (a ++ c :: b) = Some (a, b)) as E.
  { apply break_on_of_first. split; [done|]. intros a' b' Heq.
    destruct (decide (length a' < length a)%nat) as [Hlt|]; [|lia]. exfalso.
    apply Ha. apply (f_equal (fun l => l !! length a')) in Heq.
    rewrite lookup_app_l in Heq by done.
    rewrite lookup_app_r, Nat.sub_diag in Heq by done. simpl in Heq.
    by eapply list_elem_of_lookup_2. }
  rewrite length_app. simpl. rewrite Nat.add_succ_r. cbn [split_fuel]. rewrite E.
  f_equal. pose proof (break_on_single c b) as Hbb.
  destruct (length a + length b)%nat; simpl; destruct (break_on [c] b) as [[a1 b1]|];
    try done; destruct Hbb as [-> _]; exfalso; apply Hb;
    rewrite elem_of_app, elem_of_cons; auto.
Qed.

Context {rt : Runtime}.

(** X12.  Where the path separator is one character, [normalizePath] puts
    a slash for every separator and leaves every other character: the path
    keeps its length, a path of a POSIX system is returned as it is, and no
    separator other than the slash is left. *)
Theorem X12_normalizePath_slashes (c : N) (p : jsstring) :
  path_sep = [c] →
  normalizePath p = Terms.slashed c p
  ∧ (c = 47 → normalizePath p = p)
  ∧ length (normalizePath p) = length p
  ∧ (c ≠ 47 → c ∉ normalizePath p).
Proof.
  intros Hsep. unfold normalizePath, split. rewrite Hsep.
  rewrite join_split_single by done. split_and!; [done| | |].
  - intros ->. unfold Terms.slashed. induction p as [|d p IH]; [done|].
    cbn [fmap list_fmap]. rewrite IH. destruct (d =? 47) eqn:E; [|done].
    by apply N.eqb_eq in E as ->.
  - unfold Terms.slashed. by rewrite length_fmap.
  - intros Hc (d & Hd & Hin)%list_elem_of_fmap.
    destruct (d =? c) eqn:E; [congruence|]. apply N.eqb_neq in E. congruence.
Qed.

Lemma parse_size_plain (s : jsstring) :
  120 ∉ s → parse_size s = {| width := parseInt (trim s); height := None |}.
Proof.
  intros Hx. unfold parse_size. change (js "x") with [120].
  rewrite split_absent; [done|]. intros H. by apply Hx, trim_elem.
Qed.

Lemma parse_size_pair (s a b : jsstring) :
  trim s = a ++ 120 :: b → 120 ∉ a → 120 ∉ b →
  parse_size s = {| width := parseInt a;
                    height := if b is [] then None else Some (parseInt b) |}.
Proof.
  intros Htrim Ha Hb. unfold parse_size. change (js "x") with [120]. rewrite Htrim.
  rewrite split_once by done. simpl. by destruct b.
Qed.

(** X13.  A size token without the letter x asks for a width only: the
    resize keeps the aspect ratio and the file-name suffix is the width.  A
    token with one x asks for a crop to width and height when the text
    after the x reads as a number other than zero; when it is empty, reads
    as zero or is no number, the token counts as a width only. *)
Theorem X13_size_token_cases (s : jsstring) :
  (120 ∉ s →
     parse_size s = {| width := parseInt (trim s); height := None |}
     ∧ resize_of (parse_size s) = ResizeWidth (parseInt (trim s))
     ∧ suffix (parse_size s) = number_to_string (parseInt (trim s)))
  ∧ (∀ a b, trim s = a ++ 120 :: b → 120 ∉ a → 120 ∉ b →
       parse_size s
         = {| width := parseInt a;
              height := if b is [] then None else Some (parseInt b) |}
       ∧ (∀ h, parseInt b = Num h → h ≠ 0%Z →
            resize_of (parse_size s) = ResizeCover (parseInt a) (Num h)
            ∧ suffix (parse_size s)
                = number_to_string (parseInt a) ++ js "x" ++ number_to_string (Num h))
       ∧ (parseInt b = Num 0 ∨ parseInt b = NaN →
            resize_of (parse_size s) = ResizeWidth (parseInt a)
            ∧ suffix (parse_size s) = number_to_string (parseInt a))).
Proof.
  split.
  - intros Hx. by rewrite parse_size_plain.
  - intros a b Htrim Ha Hb. rewrite (parse_size_pair s a b) by done.
    split_and!; [done| |].
    + intros h Hh Hne. destruct b as [|d b]; [vm_compute in Hh; discriminate|].
      unfold resize_of, suffix, has_height. cbn [height width default].
      rewrite Hh. cbn [truthy_number]. destruct (Z.eqb_spec h 0); [done|]. done.
    + intros Hz. unfold resize_of, suffix, has_height. cbn [height width].
      destruct b as [|d b]; [done|]. by destruct Hz as [-> | ->].
Qed.
End PathsAndSizes.

Section Numerals.
Import ImageOptimizer.

Lemma js_String (a : ascii) (s : string) :
  js (String a s) = N_of_ascii a :: js s.
Proof. reflexivity. Qed.

Lemma digits_only (d : Decimal.uint) :
  Forall (fun c => is_digit c = true) (js (NilEmpty.string_of_uint d)).
Proof.
  induction d; cbn [NilEmpty.string_of_uint]; [constructor|..];
    rewrite js_String; by constructor.
Qed.

Lemma digit_range (c : N) : is_digit c = true → 48 ≤ c ≤ 57.
Proof.
  unfold is_digit. intros [H1 H2]%andb_true_iff. apply N.leb_le in H1, H2. lia.
Qed.

Lemma digit_not_space (c : N) : is_digit c = true → is_space c = false.
Proof.
  intros Hrange%digit_range. unfold is_space.
  repeat match goal with
  | |- context [?a <=? ?b] =>
      first [ rewrite (proj2 (N.leb_le a b)) by lia
            | rewrite (proj2 (N.leb_gt a b)) by lia ]
  | |- context [?a =? ?b] => rewrite (proj2 (N.eqb_neq a b)) by lia
  end. reflexivity.
Qed.

Lemma parse_digits_acc (d : Decimal.uint) (acc : positive) :
  parse_digits 10 (js (NilEmpty.string_of_uint d)) (Some (Z.pos acc))
    = Some (Z.pos (Pos.of_uint_acc d acc)).
Proof.
  revert acc. induction d as [|d IH|d IH|d IH|d IH|d IH|d IH|d IH|d IH|d IH|d IH];
    intros acc; cbn [NilEmpty.string_of_uint Pos.of_uint_acc]; [done|..];
    (rewrite js_String; cbn [parse_digits];
     match goal with
     | |- context [digit_value 10 ?c] =>
         let v := eval vm_compute in (digit_value 10 c) in
         change (digit_value 10 c) with v
     end; cbv iota beta); rewrite <- IH; do 2 f_equal; lia.
Qed.

Lemma parse_digits_zero (d : Decimal.uint) :
  parse_digits 10 (js (NilEmpty.string_of_uint d)) (Some 0%Z)
    = Some (Z.of_N (Pos.of_uint d)).
Proof.
  induction d as [|d IH|d IH|d IH|d IH|d IH|d IH|d IH|d IH|d IH|d IH];
    cbn [NilEmpty.string_of_uint Pos.of_uint]; [done|..];
    (rewrite js_String; cbn [parse_digits];
     match goal with
     | |- context [digit_value 10 ?c] =>
         let v := eval vm_compute in (digit_value 10 c) in
         change (digit_value 10 c) with v
     end; cbv iota beta); [exact IH|..]; apply parse_digits_acc.
Qed.

Lemma parse_digits_numeral (d : Decimal.uint) :
  d ≠ Decimal.Nil →
  parse_digits 10 (js (NilEmpty.string_of_uint d)) None
    = Some (Z.of_N (Pos.of_uint d)).
Proof.
  intros Hd. rewrite <- parse_digits_zero.
  destruct d; [done|..]; cbn [NilEmpty.string_of_uint]; (rewrite js_String; cbn [parse_digits];
     match goal with
     | |- context [digit_value 10 ?c] =>
         let v := eval vm_compute in (digit_value 10 c) in
         change (digit_value 10 c) with v
     end; cbv iota beta); reflexivity.
Qed.

(** [parseInt] reads a numeral as [parse_digits] does: there is no white
    space before it, no sign, and no [0x]. *)
Lemma parseInt_numeral (d : Decimal.uint) :
  d ≠ Decimal.Nil →
  parseInt (js (NilEmpty.string_of_uint d)) = Num (Z.of_N (Pos.of_uint d)).
Proof.
  intros Hd. pose proof (parse_digits_numeral d Hd) as Hp.
  assert (∀ c t, js (NilEmpty.string_of_uint d) = c :: t →
            is_digit c = true ∧ (∀ e t', t = e :: t' → is_digit e = true)) as Hshape.
  { intros c t E. pose proof (digits_only d) as Hall. rewrite E in Hall.
    apply Forall_cons in Hall as [Hc Ht]. split; [done|].
    intros e t' ->. by apply Forall_cons in Ht as [He _]. }
  destruct (js (NilEmpty.string_of_uint d)) as [|c t] eqn:E.
  { destruct d; [done|..]; cbn [NilEmpty.string_of_uint] in E;
      rewrite js_String in E; discriminate. }
  destruct (Hshape c t eq_refl) as [Hc Ht].
  pose proof (digit_range c Hc) as Hrange.
  unfold parseInt. cbn [trimStart]. rewrite (digit_not_space c Hc).
  assert (c = 48 ∨ c = 49 ∨ c = 50 ∨ c = 51 ∨ c = 52 ∨ c = 53 ∨ c = 54 ∨ c = 55
          ∨ c = 56 ∨ c = 57) as Hcases by lia.
  destruct Hcases as [->|[->|[->|[->|[->|[->|[->|[->|[->| ->]]]]]]]]];
    try (cbv iota beta; rewrite Hp; f_equal; lia).
  destruct t as [|e t']; [cbv iota beta; rewrite Hp; f_equal; lia|].
  pose proof (digit_range e (Ht e t' eq_refl)) as Hrange'.
  assert (e = 48 ∨ e = 49 ∨ e = 50 ∨ e = 51 ∨ e = 52 ∨ e = 53 ∨ e = 54 ∨ e = 55
          ∨ e = 56 ∨ e = 57) as Hcases by lia.
  destruct Hcases as [->|[->|[->|[->|[->|[->|[->|[->|[->| ->]]]]]]]]];
    cbv iota beta; rewrite Hp; f_equal; lia.
Qed.

Lemma number_to_string_pos (p : positive) :
  number_to_string (Num (Z.pos p)) = js (NilEmpty.string_of_uint (Pos.to_uint p)).
Proof.
  unfold number_to_string. cbn [Z.to_int NilZero.string_of_int].
  unfold NilZero.string_of_uint.
  pose proof (Unsigned.to_uint_nonnil p). by destruct (Pos.to_uint p).
Qed.

Lemma parseInt_number (p : positive) :
  parseInt (number_to_string (Num (Z.pos p))) = Num (Z.pos p).
Proof.
  rewrite number_to_string_pos, parseInt_numeral by apply Unsigned.to_uint_nonnil.
  by rewrite Unsigned.of_to.
Qed.

Lemma numeral_digits (p : positive) :
  Forall (fun c => is_digit c = true) (number_to_string (Num (Z.pos p)))
  ∧ number_to_string (Num (Z.pos p)) ≠ [].
Proof.
  rewrite number_to_string_pos. split; [apply digits_only|].
  pose proof (Unsigned.to_uint_nonnil p).
  destruct (Pos.to_uint p); [done|..]; cbn [NilEmpty.string_of_uint];
    rewrite js_String; done.
Qed.

Lemma digits_no_x (s : jsstring) :
  Forall (fun c => is_digit c = true) s → 120 ∉ s.
Proof.
  rewrite Forall_forall. intros Hall Hin. apply Hall in Hin. done.
Qed.

Context {rt : Runtime}.

(** X14.  A size token written as the decimal numeral of a width gives
    that width, and the file-name suffix is the numeral again; a token of
    two numerals with an x between them gives that width and height, a crop
    to both, and the token itself as suffix.  Stated for the integers
    JavaScript numbers hold exactly. *)
Theorem X14_decimal_size_tokens (w h : positive) :
  (Z.pos w < 2 ^ 53)%Z → (Z.pos h < 2 ^ 53)%Z →
  let W := number_to_string (Num (Z.pos w)) in
  let Ht := number_to_string (Num (Z.pos h)) in
  parse_size W = {| width := Num (Z.pos w); height := None |}
  ∧ suffix (parse_size W) = W
  ∧ resize_of (parse_size W) = ResizeWidth (Num (Z.pos w))
  ∧ parse_size (W ++ js "x" ++ Ht)
      = {| width := Num (Z.pos w); height := Some (Num (Z.pos h)) |}
  ∧ suffix (parse_size (W ++ js "x" ++ Ht)) = W ++ js "x" ++ Ht
  ∧ resize_of (parse_size (W ++ js "x" ++ Ht))
      = ResizeCover (Num (Z.pos w)) (Num (Z.pos h)).
Proof.
  intros _ _ W Ht.
  destruct (numeral_digits w) as [HW HWne]. destruct (numeral_digits h) as [HH HHne].
  pose proof (parseInt_number w) as Pw. pose proof (parseInt_number h) as Ph.
  fold W in HW, HWne, Pw. fold Ht in HH, HHne, Ph.
  assert (number_to_string (Num (Z.pos w)) = W) as EW by done.
  assert (number_to_string (Num (Z.pos h)) = Ht) as EH by done.
  clearbody W Ht.
  assert (trim W = W) as TW.
  { apply trim_fixed, no_space_trimmed. eapply Forall_impl; [exact HW|].
    intros c. apply digit_not_space. }
  assert (trim (W ++ js "x" ++ Ht) = W ++ 120 :: Ht) as TWH.
  { change (js "x" ++ Ht) with (120 :: Ht).
    apply trim_fixed, no_space_trimmed. apply Forall_app. split.
    - eapply Forall_impl; [exact HW|]. intros c. apply digit_not_space.
    - apply Forall_cons. split; [done|].
      eapply Forall_impl; [exact HH|]. intros c. apply digit_not_space. }
  rewrite (parse_size_plain W) by by apply digits_no_x.
  rewrite (parse_size_pair _ W Ht TWH) by by apply digits_no_x.
  assert ((if Ht is [] then None else Some (parseInt Ht)) = Some (parseInt Ht)) as ->
    by by destruct Ht.
  rewrite TW, Pw, Ph.
  unfold suffix, resize_of, has_height, default. cbn [height width from_option].
  unfold id. change (truthy_number (Num (Z.pos h))) with true. cbv iota.
  rewrite EW, EH. split_and!; done.
Qed.
End Numerals.

(** * The versioned script: completion, routes and the fingerprint *)

Section VersionedFacts.
Import Header ImageOptimizer BuildVersioned.

Lemma hex_digit_hex (n : N) : n < 16 → Terms.is_hex (Sha1.hex_digit n) = true.
Proof.
  intros Hn. unfold Sha1.hex_digit, Terms.is_hex, is_digit.
  destruct (N.ltb_spec n 10).
  - apply orb_true_iff. left. apply andb_true_iff. split; apply N.leb_le; lia.
  - apply orb_true_iff. right. apply andb_true_iff. split; apply N.leb_le; lia.
Qed.

Lemma hex32_hex (w : N) :
  length (Sha1.hex32 w) = 8%nat ∧ Forall (fun c => Terms.is_hex c = true) (Sha1.hex32 w).
Proof.
  unfold Sha1.hex32. split; [by rewrite length_fmap|].
  apply Forall_fmap, Forall_forall. intros i _. simpl.
  apply hex_digit_hex. apply N.mod_lt. done.
Qed.

Context {rt : Runtime}.

Lemma store_step_fields (version : jsstring) (st : build_state)
    (entry : list N * list N) :
  worker (store_step version st entry) = worker st
  ∧ disk (store_step version st entry) = disk st
  ∧ edgeStore (store_step version st entry)
      = <[routeKey version (replace entry.1 (js ".fx") []) :=
            minify (html_out (processImages (fs st) (trim entry.2)))]> (edgeStore st).
Proof.
  unfold store_step, render. simpl. split_and!; [done..|].
  unfold obj_set, str_eqb. rewrite bool_decide_false; [done|].
  apply routeKey_not_proto.
Qed.


(** Where an entry of the table comes from. *)
Lemma store_fold_lookup (version : jsstring) (files : listing) (st : build_state)
    (k html : jsstring) :
  edgeStore (foldl (store_step version) st files) !! k = Some html →
  edgeStore st !! k = Some html
  ∨ ∃ e fs1, e ∈ files ∧ k = routeKey version (replace e.1 (js ".fx") [])
             ∧ html = minify (html_out (processImages fs1 (trim e.2))).
Proof.
  revert st. induction files as [|e files IH]; intros st; [by left|].
  cbn [foldl]. intros [Hk|(e' & fs1 & He' & -> & ->)]%IH.
  - destruct (store_step_fields version st e) as (_ & _ & Hstore).
    rewrite Hstore in Hk. apply lookup_insert_Some in Hk as [[<- <-]|[_ Hk]]; [|by left].
    right. exists e, (fs st). split_and!; [by left|done..].
  - right. exists e', fs1. split_and!; [by right|done..].
Qed.







(** In a URL made of an origin without path and a route key, the first
    marker at or after index 8 is the start of the key. *)
Lemma first_marker_after_origin (origin key : jsstring) :
  (8 ≤ length origin)%nat →
  (∀ j, (8 ≤ j)%nat → origin !! j ≠ Some 47) →
  startsWith key (js "/__fx/") = true →
  indexOf (origin ++ key) (js "/__fx/") 8 = Some (length origin).
Proof.
  intros Hlen Hslash Hkey. unfold indexOf.
  assert (js "/__fx/" ≠ []) as Hne by (vm_compute; discriminate).
  assert (∀ j, (8 ≤ j < length origin)%nat →
            startsWith (drop j (origin ++ key)) (js "/__fx/") = false) as Hbefore.
  { intros j [Hj1 Hj2]. rewrite drop_app_le by lia.
    destruct (drop j origin) as [|c t] eqn:E.
    { apply (f_equal length) in E. rewrite length_drop in E. simpl in E. lia. }
    assert (origin !! j = Some c) as Hc.
    { rewrite <- (Nat.add_0_r j), <- lookup_drop, E. done. }
    destruct (decide (c = 47)) as [->|Hc47]; [by apply Hslash in Hc|].
    unfold startsWith. cbn [app]. change (js "/__fx/") with (47 :: js "__fx/").
    rewrite strip_prefix_mismatch; [done|congruence]. }
  assert (startsWith (drop (length origin) (origin ++ key)) (js "/__fx/") = true) as Hat.
  { by rewrite drop_app_length. }
  destruct (indexOf_at (js "/__fx/") (origin ++ key) 8 0) as [j|] eqn:E.
  - apply indexOf_at_Some in E as (n & -> & Hn & Hstart & Hmin); [|done]. simpl.
    destruct (decide (n < length origin)%nat) as [Hlt|Hge].
    { rewrite Hbefore in Hstart by lia. done. }
    destruct (decide (n = length origin)) as [->|Hneq]; [done|].
    rewrite Hmin in Hat by lia. done.
  - eapply indexOf_at_None in E; [|done|exact Hlen]. congruence.
Qed.

(** X16.  After a completed build, the edge script answers the route of
    every fragment file: for a request whose URL is an origin without path
    (eight characters or more, no slash from index 8 on) followed by
    [/__fx/v<fingerprint>/<name>], it responds with the headers [H] and
    with the minified markup of a fragment file of that name, also when
    that markup is empty. *)
Theorem X16_versioned_fragment_round_trip (fs0 : FS) (files pages : listing)
    (ls : layouts) (st : build_state) (origin f text : jsstring) :
  build fs0 (Some files) pages ls = Completed st →
  (f, text) ∈ files → endsWith f (js ".fx") = true →
  (8 ≤ length origin)%nat →
  (∀ j, (8 ≤ j)%nat → origin !! j ≠ Some 47) →
  ∃ (P : gmap (list N) (list N)) (html : jsstring),
    worker st = Some P
    ∧ edgeScript P
        (origin ++ js "/__fx/v" ++ build_version fs0 (Some files) ++ js "/"
           ++ replace f (js ".fx") [])
      = Respond html H
    ∧ ∃ (fs1 : FS) (f' text' : jsstring),
        (f', text') ∈ files
        ∧ replace f' (js ".fx") [] = replace f (js ".fx") []
        ∧ html = minify (html_out (processImages fs1 (trim text'))).
Proof.
  intros Hbuild Hin Hfx Hlen Hslash. unfold build in Hbuild.
  destruct (pages_loop _ _ _ _) as [st1|st1] eqn:Hloop; [|done].
  injection Hbuild as <-. cbn [worker].
  assert (edgeStore st1 = edgeStore (fragments_done fs0 (Some files))) as Hstore.
  { eapply pages_loop_store. left. exact Hloop. }
  set (version := build_version fs0 (Some files)).
  set (key := routeKey version (replace f (js ".fx") [])).
  assert (key ∈ dom (edgeStore st1)) as Hdom.
  { rewrite Hstore. unfold fragments_done.
    fold (build_version fs0 (Some files)). unfold build_version in version.
    destruct (foldl payload_step _ _) as [[fs1 payload] out] eqn:Hpay. cbn [fst snd] in version.
    apply store_fold_dom. right. exists (f, text). split; [|done].
    unfold fragmentFiles. apply list_elem_of_filter. done. }
  apply elem_of_dom in Hdom as [html Hhtml].
  exists (edgeStore st1), html. split; [done|]. split.
  - unfold edgeScript.
    change (js "/__fx/v" ++ version ++ js "/" ++ replace f (js ".fx") []) with key.
    rewrite first_marker_after_origin; [|done..]. by rewrite drop_app_length, Hhtml.
  - rewrite Hstore in Hhtml. unfold fragments_done in Hhtml.
    unfold build_version in version.
    destruct (foldl payload_step _ _) as [[fs1 payload] out] eqn:Hpay. cbn [fst snd] in version.
    apply store_fold_lookup in Hhtml as [Hnone|(e & fs2 & He & Hkey & ->)]; [done|].
    apply list_elem_of_filter in He as [_ He]. destruct e as [f' text'].
    exists fs2, f', text'. split_and!; [done| |done].
    unfold key, routeKey in Hkey. cbn [fst] in Hkey.
    apply app_inv_head in Hkey. apply app_inv_head in Hkey. by apply app_inv_head in Hkey.
Qed.

(** X17.  The fingerprint of a build is eight lower-case hexadecimal
    digits, whatever the fragments are; so every route key is the marker,
    the letter v, eight such digits, a slash and the fragment's name. *)
Theorem X17_version_is_eight_hex_digits (fs0 : FS) (fragments : option listing) :
  length (build_version fs0 fragments) = 8%nat
  ∧ Forall (fun c => Terms.is_hex c = true) (build_version fs0 fragments)
  ∧ ∀ k, k ∈ dom (edgeStore (fragments_done fs0 fragments)) →
      ∃ name, k = js "/__fx/v" ++ build_version fs0 fragments ++ js "/" ++ name
              ∧ length k = (16 + length name)%nat.
Proof.
  assert (length (build_version fs0 fragments) = 8%nat
          ∧ Forall (fun c => Terms.is_hex c = true) (build_version fs0 fragments))
    as [Hlen Hhex].
  { unfold build_version, FX_VERSION, hash.
    destruct (Sha1.sha1 _) as [[[[h0 h1] h2] h3] h4]. apply hex32_hex. }
  split_and!; [done..|].
  intros k Hk. unfold fragments_done in Hk. fold (build_version fs0 fragments) in Hk.
  unfold build_version in Hlen |- *.
  destruct (foldl payload_step _ _) as [[fs1 payload] out]. cbn [fst snd] in Hlen |- *.
  apply store_fold_dom in Hk as [Hk|(e & _ & ->)].
  { cbn [edgeStore] in Hk. rewrite dom_empty in Hk. by apply elem_of_empty in Hk. }
  exists (replace e.1 (js ".fx") []). split; [done|].
  unfold routeKey. rewrite !length_app, Hlen. reflexivity.
Qed.
End VersionedFacts.

(** * Route keys and tables of the scripts with one-minute workers *)

Section KeyFacts.

Lemma is_home_spec (slug : jsstring) :
  is_home slug = true ↔ slug = js "home" ∨ slug = js "index".
Proof.
  unfold is_home, str_eqb. rewrite orb_true_iff, !bool_decide_eq_true. done.
Qed.

Context {rt : Runtime}.

Lemma edgeKey_root (slug : jsstring) :
  BuildPages.edgeKey slug = js "/" ↔ Terms.root_slug slug.
Proof.
  unfold BuildPages.edgeKey, Terms.root_slug.
  destruct (is_home slug) eqn:E.
  - apply is_home_spec in E. split; [|done]. intros _. destruct E; auto.
  - split.
    + intros Hk. right. right. change (js "/") with [47] in Hk.
      simpl in Hk. by injection Hk.
    + intros [->| [->| ->]]; [done..|]. done.
Qed.

(** X18.  Two page slugs get the same route key exactly when they are the
    same slug or both are among [home], [index] and the empty slug (of a
    file named [.fx]), which all get the root path; the script of
    [part_000] gives pages the same keys, and its fragment keys never
    collide for different slugs. *)
Theorem X18_keys_collide_at_root_only (a b : jsstring) :
  (BuildPages.edgeKey a = BuildPages.edgeKey b
     ↔ a = b ∨ (Terms.root_slug a ∧ Terms.root_slug b))
  ∧ BuildSplit.edgeKey a = BuildPages.edgeKey a
  ∧ (js "/" ++ a = js "/" ++ b ↔ a = b).
Proof.
  split_and!; [|done|].
  - split.
    + intros Hk. destruct (is_home a) eqn:Ea.
      * right. assert (BuildPages.edgeKey a = js "/") as Ha
          by (unfold BuildPages.edgeKey; by rewrite Ea).
        split; apply edgeKey_root; congruence.
      * destruct (is_home b) eqn:Eb.
        -- right. assert (BuildPages.edgeKey b = js "/") as Hb
             by (unfold BuildPages.edgeKey; by rewrite Eb).
           split; apply edgeKey_root; congruence.
        -- left. unfold BuildPages.edgeKey in Hk. rewrite Ea, Eb in Hk.
           by apply app_inv_head in Hk.
    + intros [->|[Ha Hb]]; [done|].
      apply edgeKey_root in Ha, Hb. congruence.
  - split; [apply app_inv_head|by intros ->].
Qed.
End KeyFacts.

Section PagesFacts.
Import Header ImageOptimizer BuildPages.
Context {rt : Runtime}.




End PagesFacts.

Section SplitWorker.
Import Header ImageOptimizer BuildSplit.
Context {rt : Runtime}.


Lemma parseMetadata_nil : parseMetadata [] = ∅.
Proof. reflexivity. Qed.

Lemma layout_name_body (html : jsstring) :
  layout_name (obj_set (js "body") html ∅) = js "base".
Proof.
  unfold layout_name. rewrite obj_set_lookup.
  rewrite decide_False; [done|]. intros [Heq _]. vm_compute in Heq. discriminate.
Qed.

(** X21.  A page file without delimiter, in the script of [part_000]: the
    warning is printed, the trimmed file is the content in the table, the
    header is empty, and the page is written all the same, rendered by the
    layout [base] from a record that holds the body alone.  The oldest
    script stores the same content and writes no page for such a file. *)
Theorem X21_page_without_delimiter_goes_through_base (ls : layouts)
    (st : build_state) (file rawFile : jsstring)
    (layoutFn : gmap (list N) (list N) → list N) :
  endsWith file (js ".fx") = true →
  includes rawFile delimiter = false →
  ls (js "base") = Some layoutFn →
  let pass1 := processImages (fs st) (trim rawFile) in
  let slug := replace file (js ".fx") [] in
  let st' := page_step ls st (file, rawFile) in
  WarnNoSeparator file ∈ console st'
  ∧ edgeStore st' !! edgeKey slug = Some (minify (html_out pass1))
  ∧ disk st' !! outPath slug
      = Some (minify (html_out (processImages (fs_out pass1)
                                  (layoutFn {[ js "body" := html_out pass1 ]}))))
  ∧ disk (BuildPages.step ls st (file, rawFile)) = disk st
  ∧ edgeStore (BuildPages.step ls st (file, rawFile)) !! edgeKey slug
      = Some (minify (html_out pass1)).
Proof.
  intros Hfx Hinc Hbase pass1 slug st'.
  assert (obj_set (js "body") (html_out pass1) ∅
          = ({[ js "body" := html_out pass1 ]} : gmap (list N) (list N))) as Hrec.
  { unfold obj_set, str_eqb. rewrite bool_decide_false; [done|].
    vm_compute. discriminate. }
  unfold st', page_step, split_page, BuildPages.step. rewrite Hfx, Hinc. cbn [negb].
  cbv zeta. rewrite parseMetadata_nil. fold pass1. fold slug.
  rewrite layout_name_body, Hbase. cbn [console edgeStore disk].
  split_and!.
  - rewrite !elem_of_app, elem_of_cons. auto.
  - rewrite obj_set_lookup, decide_True; auto using edgeKey_not_proto.
  - rewrite lookup_insert_eq. by rewrite Hrec.
  - done.
  - change (BuildPages.edgeKey slug) with (edgeKey slug).
    rewrite obj_set_lookup, decide_True; auto using edgeKey_not_proto.
Qed.
End SplitWorker.

(** * The image optimizer on a plain element *)

Section MatcherPriority.
Import Regex.
Context {R : Type}.



End MatcherPriority.

Section PlainElements.
Import Regex ImageOptimizer.









Context {rt : Runtime}.

End PlainElements.

(** * The tables of the script with separate directories *)

Section TableFolds.
Context {rt : Runtime} {A : Type}.


End TableFolds.

Section SplitTables.
Import Header ImageOptimizer BuildSplit.
Context {rt : Runtime}.




End SplitTables.

(** * The record a layout receives in the versioned script *)

Section VersionedPages.
Import Header ImageOptimizer BuildVersioned.
Context {rt : Runtime}.

Lemma pages_loop_app (ls : layouts) (version : jsstring) (l1 l2 : listing)
    (st : build_state) :
  pages_loop ls version st (l1 ++ l2) =
    match pages_loop ls version st l1 with
    | Completed st1 => pages_loop ls version st1 l2
    | Threw st' => Threw st'
    end.
Proof.
  revert st. induction l1 as [|e l1 IH]; intros st; [done|].
  cbn [app pages_loop]. by destruct (page_step ls version st e).
Qed.

(** X24.  In a completed versioned build, the page of the page file
    listed last is the minified output of its layout, called with a record
    that holds the parsed header tags, the optimized body under [body] and
    the fingerprint of the build under [fxVersion]; both replace header
    tags of the same names.  The fingerprint is the one in every route key
    of the fragment table, so a layout can link to the fragments. *)
Theorem X24_versioned_page_record (fs0 : FS) (fragments : option listing)
    (pages : listing) (f raw : jsstring) (ls : layouts) (st : build_state) :
  endsWith f (js ".fx") = true →
  build fs0 fragments (pages ++ [(f, raw)]) ls = Completed st →
  ∃ (fs1 fs2 : FS) (layoutFn : gmap (list N) (list N) → list N),
    let meta := parseMetadata (Terms.versioned_head raw) in
    let content := if includes raw delimiter then page_body raw else trim raw in
    let html := html_out (processImages fs1 content) in
    let data :=
      <[js "fxVersion" := build_version fs0 fragments]> (<[js "body" := html]> meta) in
    ls (layout_name meta) = Some layoutFn
    ∧ disk st !! path_join [OUT; Terms.versioned_out f]
        = Some (minify (html_out (processImages fs2 (layoutFn data))))
    ∧ data !! js "fxVersion" = Some (build_version fs0 fragments)
    ∧ data !! js "body" = Some html
    ∧ (∀ k, k ≠ js "body" → k ≠ js "fxVersion" → data !! k = meta !! k)
    ∧ (∀ k, k ∈ dom (edgeStore st) →
         ∃ name, k = js "/__fx/v" ++ build_version fs0 fragments ++ js "/" ++ name).
Proof.
  intros Hfx Hbuild. unfold build in Hbuild.
  rewrite filter_app, pages_loop_app in Hbuild.
  destruct (pages_loop _ _ _ (filter _ pages)) as [st1|st1] eqn:Hloop1; [|done].
  assert (filter (fun e => is_fx e = true) [(f, raw)] = [(f, raw)]) as Hlast.
  { rewrite filter_cons_True by done. done. }
  rewrite Hlast in Hbuild. cbn [pages_loop] in Hbuild.
  destruct (page_step _ _ st1 (f, raw)) as [st2|st2] eqn:Hstep; [|done].
  injection Hbuild as <-. cbn [disk edgeStore].
  assert (edgeStore st2 = edgeStore (fragments_done fs0 fragments)) as Hstore.
  { transitivity (edgeStore st1).
    - eapply page_step_store. left. exact Hstep.
    - eapply pages_loop_store. left. exact Hloop1. }
  unfold page_step, Terms.versioned_head in *.
  exists (fs st1).
  destruct (includes raw delimiter);
    (destruct (ls _) as [layoutFn|] eqn:Hl; [|done]);
    injection Hstep as <-; eexists _, layoutFn; cbv zeta; cbn [disk];
    (split_and!;
       [done
       |by rewrite lookup_insert_eq
       |by rewrite lookup_insert_eq
       |rewrite lookup_insert_ne by (vm_compute; discriminate);
          by rewrite lookup_insert_eq
       |intros k Hb Hv; by rewrite !lookup_insert_ne by done
       |]);
    intros k Hk; rewrite Hstore in Hk; unfold fragments_done in Hk;
    fold (build_version fs0 fragments) in Hk; unfold build_version;
    destruct (foldl payload_step _ _) as [[fs1 payload] out]; cbn [fst snd] in *;
    (apply store_fold_dom in Hk as [Hk|(e & _ & ->)];
       [cbn [edgeStore] in Hk; rewrite dom_empty in Hk; by apply elem_of_empty in Hk|]);
    by eexists.
Qed.
End VersionedPages.

(** * The further properties on concrete inputs *)

Section FurtherExamples.
Import Regex Header ImageOptimizer.

Lemma marked_image_matches :
  matchAll imgRegex (js "<p>x</p>" ++ Fixtures.marked_image ++ js "<p>y</p>")
    = [Fixtures.marked_image_match].
Proof. vm_compute; reflexivity. Qed.

(** X6 at the marked image between two paragraphs. *)
Lemma X6_selected_elements_are_marked_witness :
  Terms.marked_element (originalTag Fixtures.marked_image_match)
    Fixtures.marked_image_match
  ∧ ∃ pre post,
      js "<p>x</p>" ++ Fixtures.marked_image ++ js "<p>y</p>"
        = pre ++ originalTag Fixtures.marked_image_match ++ post.
Proof.
  apply X6_selected_elements_are_marked.
  rewrite marked_image_matches. by left.
Defined.

Lemma marked_image_is_marked :
  Terms.marked_element Fixtures.marked_image Fixtures.marked_image_match.
Proof.
  exists (js " "), squote, squote, (js "='300'").
  split_and!; [vm_compute; reflexivity|vm_compute; discriminate
              |by repeat constructor|done|done|vm_compute; discriminate
              |by repeat constructor|by repeat constructor|].
  right. exists (js "300"), squote, squote.
  split_and!; [done|vm_compute; reflexivity|done|done|by repeat constructor].
Qed.

(** X7 at the marked image after plain text. *)
Lemma X7_marked_elements_are_found_witness :
  ∃ m' ms rest,
    matchAll imgRegex (js "intro " ++ Fixtures.marked_image ++ js "<p>y</p>") = m' :: ms
    ∧ Fixtures.marked_image ++ js "<p>y</p>" = originalTag m' ++ rest
    ∧ Terms.marked_element (originalTag m') m'.
Proof.
  destruct (X7_marked_elements_are_found
              (js "intro " ++ Fixtures.marked_image ++ js "<p>y</p>")) as [_ Hfirst].
  apply (Hfirst (js "intro ") Fixtures.marked_image Fixtures.marked_image_match
           (js "<p>y</p>")); [done|apply marked_image_is_marked|].
  intros Hin. vm_compute in Hin. apply list_elem_of_In in Hin.
  repeat (destruct Hin as [Hin|Hin]; [discriminate|]). done.
Defined.


(** X9 at the rendition of the marked image. *)
Lemma X9_renditions_come_from_existing_sources_witness :
  ∃ m sz,
    m ∈ matchAll imgRegex (js "<p>x</p>" ++ Fixtures.marked_image ++ js "<p>y</p>")
    ∧ existsSync (Runtime := Demo.runtime) Fixtures.one_asset
        (localFilePath (rt := Demo.runtime) m) = true
    ∧ sz ∈ sizesToProcess m
    ∧ Fixtures.rendition_300 = variant_of (rt := Demo.runtime) m sz
    ∧ v_source Fixtures.rendition_300
        = path_join (Runtime := Demo.runtime)
            [cwd (Runtime := Demo.runtime); js "src"; cleanPath m]
    ∧ v_quality Fixtures.rendition_300 = 80%Z
    ∧ v_target Fixtures.rendition_300
        = path_join (Runtime := Demo.runtime)
            [cwd (Runtime := Demo.runtime); js "public"; fsDirName (rt := Demo.runtime) m;
             fileName (rt := Demo.runtime) m ++ js "-" ++ suffix sz ++ js ".webp"].
Proof.
  apply (X9_renditions_come_from_existing_sources (rt := Demo.runtime)
           Fixtures.one_asset).
  assert (derived (processImages (rt := Demo.runtime) Fixtures.one_asset
            (js "<p>x</p>" ++ Fixtures.marked_image ++ js "<p>y</p>"))
          = [Fixtures.rendition_300]) as -> by (vm_compute; reflexivity).
  by left.
Defined.

(** X12 on a POSIX system. *)
Lemma X12_normalizePath_slashes_witness :
  normalizePath (rt := Demo.runtime) (js "assets/img") = js "assets/img".
Proof.
  destruct (X12_normalizePath_slashes (rt := Demo.runtime) 47 (js "assets/img"))
    as (_ & Hposix & _); [reflexivity|].
  by apply Hposix.
Defined.

(** X13 at a token with spaces around it. *)
Lemma X13_size_token_cases_witness :
  parse_size (js " 600x400 ")
    = {| width := parseInt (js "600"); height := Some (parseInt (js "400")) |}.
Proof.
  destruct (X13_size_token_cases (js " 600x400 ")) as [_ Hpair].
  destruct (Hpair (js "600") (js "400")) as [Hsize _].
  - vm_compute; reflexivity.
  - intros Hin. vm_compute in Hin. apply list_elem_of_In in Hin.
    repeat (destruct Hin as [Hin|Hin]; [discriminate|]). done.
  - intros Hin. vm_compute in Hin. apply list_elem_of_In in Hin.
    repeat (destruct Hin as [Hin|Hin]; [discriminate|]). done.
  - exact Hsize.
Defined.

(** X14 at the token 300x200. *)
Lemma X14_decimal_size_tokens_witness :
  suffix (parse_size (number_to_string (Num 300) ++ js "x" ++ number_to_string (Num 200)))
    = js "300x200"
  ∧ number_to_string (Num 300) ++ js "x" ++ number_to_string (Num 200) = js "300x200".
Proof.
  pose proof (X14_decimal_size_tokens 300 200) as Hsizes.
  cbv zeta in Hsizes.
  destruct Hsizes as (_ & _ & _ & _ & Hsuffix & _); [reflexivity..|].
  rewrite Hsuffix. split; vm_compute; reflexivity.
Defined.


(** X16 at a fragment [cart.fx] and the origin [https://shop.io]. *)
Lemma X16_versioned_fragment_round_trip_witness :
  ∃ st,
    BuildVersioned.build (rt := Demo.runtime) [] (Some Fixtures.one_fragment) []
      Fixtures.only_base = BuildVersioned.Completed st
    ∧ ∃ (P : gmap (list N) (list N)) (html : jsstring),
        worker st = Some P
        ∧ BuildVersioned.edgeScript P
            (Fixtures.origin ++ js "/__fx/v"
               ++ BuildVersioned.build_version (rt := Demo.runtime) []
                    (Some Fixtures.one_fragment)
               ++ js "/" ++ replace (js "cart.fx") (js ".fx") [])
          = Respond html BuildVersioned.H.
Proof.
  eexists. split; [vm_compute; reflexivity|].
  lazymatch goal with
  | |- ∃ P html, worker ?st = _ ∧ _ =>
      destruct (X16_versioned_fragment_round_trip (rt := Demo.runtime) []
                  Fixtures.one_fragment [] Fixtures.only_base st Fixtures.origin
                  (js "cart.fx") (js "<p>cart</p>"))
        as (P & html & Hw & Hresp & _);
        [vm_compute; reflexivity|by left|vm_compute; reflexivity
        |apply Nat.leb_le; vm_compute; reflexivity| |by exists P, html]
  end.
  intros j Hj Hlook.
  do 8 (destruct j as [|j]; [lia|]).
  do 7 (destruct j as [|j]; [vm_compute in Hlook; discriminate|]).
  vm_compute in Hlook. discriminate.
Defined.


(** X21 at the page [modal.fx] without delimiter. *)
Lemma X21_page_without_delimiter_goes_through_base_witness :
  disk (BuildSplit.page_step (rt := Demo.runtime) Fixtures.only_base
          (start (rt := Demo.runtime) []) (js "modal.fx", js "<div>m</div>"))
    !! js "/site/public/modal.html"
  = Some (js "<html><body><div>m</div></body></html>").
Proof.
  pose proof (X21_page_without_delimiter_goes_through_base (rt := Demo.runtime)
                Fixtures.only_base (start (rt := Demo.runtime) []) (js "modal.fx")
                (js "<div>m</div>") Fixtures.base_layout) as Hpage.
  cbv zeta in Hpage.
  destruct Hpage as (_ & _ & Hdisk & _); [vm_compute; reflexivity..|].
  replace (js "/site/public/modal.html")
    with (BuildSplit.outPath (rt := Demo.runtime) (replace (js "modal.fx") (js ".fx") []))
    by (vm_compute; reflexivity).
  rewrite Hdisk. vm_compute; reflexivity.
Defined.



(** X24 at a build with one fragment and one page. *)
Lemma X24_versioned_page_record_witness :
  ∃ st,
    BuildVersioned.build (rt := Demo.runtime) [] (Some Fixtures.one_fragment)
      ([] ++ [(js "a.fx", js "<title>T</title>------<p>a</p>")]) Fixtures.only_base
    = BuildVersioned.Completed st
    ∧ ∃ page,
        disk st !! path_join (Runtime := Demo.runtime)
                     [BuildVersioned.OUT (rt := Demo.runtime);
                      Terms.versioned_out (js "a.fx")]
        = Some page.
Proof.
  eexists. split; [vm_compute; reflexivity|].
  lazymatch goal with
  | |- ∃ page, disk ?st !! _ = _ =>
      destruct (X24_versioned_page_record (rt := Demo.runtime) []
                  (Some Fixtures.one_fragment) [] (js "a.fx")
                  (js "<title>T</title>------<p>a</p>") Fixtures.only_base st)
        as (fs1 & fs2 & layoutFn & Hrec);
        [vm_compute; reflexivity..|]
  end.
  cbv zeta in Hrec. destruct Hrec as (_ & Hdisk & _). by eexists.
Defined.
End FurtherExamples.
